(** * ble-beacon-reader: decoder, filter and session recorder

    A shallow embedding of the TypeScript sources

      - [src/services/BleService.ts]     (iBeacon decoder, UUID / RSSI filter)
      - [src/services/StorageService.ts] (AsyncStorage persistence)
      - [src/utils/uuidUtils.ts]         (UUID grammar)
      - [src/screens/ScanningScreen.tsx] (session life cycle)
      - [src/screens/SettingsScreen.tsx] (validation of the settings)
      - [src/screens/SessionsScreen.tsx] (list of saved sessions)

    Modelling conventions.

      - A JavaScript [number] that the program only ever uses as an integer
        (bytes, RSSI, millisecond time stamps) is a [Z].  The 32-bit
        wrap-around of [<<] and [|] is written out in [ToInt32].
      - A JavaScript string is a [string] whose characters are code units
        below 256; [toLowerCase] / [toUpperCase] act on the ASCII letters.
      - [async] functions run in a state-and-exception monad [JS] over a
        [World]: the AsyncStorage contents, the React state of the scanning
        screen, the [BleService] singleton, the alerts shown and the console.
        Every native call (AsyncStorage, BleManager) consumes one entry of
        the fault oracle [faults]; [true] makes the call reject.  [now] is
        what [Date.now()] reads, [randoms] feeds [Math.random()] and
        [toLocaleString] is the platform's date formatter.  The clock
        moves between operations ([Tick]), not within one.
      - The event loop: a handler runs to its end in [JS]; where claims are
        about calls in flight at the same time, a call is resumed [await] by
        [await] ([resume], [schedule]).
      - AsyncStorage holds JSON text; the model stores the parsed value
        (JSON.parse after JSON.stringify is the identity on these records).
      - [undefined] / [null] is [None]. *)

From Stdlib Require Import ZArith Lia Bool Ascii String HexString DecimalString.
From Stdlib Require Import Sorted Permutation.
From stdpp Require Import base list.

Local Open Scope string_scope.
Local Open Scope Z_scope.

(** ** src/types/index.ts *)

Record BeaconRead := mkBeaconRead {
  read_id : string;
  read_uuid : string;
  read_major : Z;
  read_minor : Z;
  read_rssi : Z;
  read_timestamp : Z
}.

Record Session := mkSession {
  session_id : string;
  session_name : string;
  startTime : Z;
  endTime : option Z;
  beaconReads : list BeaconRead
}.

Record Settings := mkSettings {
  targetUuid : string;
  rssiThreshold : Z
}.

(** The part of the platform's [peripheral: any] object the decoder reads. *)
Record Advertising := mkAdvertising {
  manufacturerData : option (list Z)
}.

Record Peripheral := mkPeripheral {
  advertising : option Advertising;
  rssi : option Z
}.

(** What [parseIBeaconData] returns when it recognises a frame. *)
Record BeaconData := mkBeaconData {
  uuid : string;
  major : Z;
  minor : Z;
  beacon_rssi : Z
}.

(** ** The world the asynchronous code runs in *)

(** AsyncStorage under the three keys of [STORAGE_KEYS]. *)
Record Storage := mkStorage {
  SETTINGS : option Settings;
  SESSIONS : option (list Session);
  CURRENT_SESSION : option Session
}.

(** The only callback the repository registers with
    [setBeaconFoundCallback]:
    [beaconRead => setBeaconReads(prev => [beaconRead, ...prev])]. *)
Inductive Callback := PrependBeaconRead.

(** Private fields of the [BleService] singleton. *)
Record Ble := mkBle {
  ble_isScanning : bool;
  ble_settings : option Settings;
  onBeaconFound : option Callback;
  listeners : nat
}.

(** [useState] cells of [ScanningScreen]. *)
Record Screen := mkScreen {
  isScanning : bool;
  currentSession : option Session;
  screen_beaconReads : list BeaconRead;
  bluetoothState : string;
  showSaveModal : bool;
  sessionName : string
}.

Record World := mkWorld {
  storage : Storage;
  faults : list bool;
  now : Z;
  randoms : list string;
  toLocaleString : Z -> string;
  ble : Ble;
  screen : Screen;
  alerts : list (string * string);
  console : list string
}.

Definition set_storage (f : Storage -> Storage) (w : World) : World :=
  mkWorld (f (storage w)) (faults w) (now w) (randoms w) (toLocaleString w) (ble w) (screen w)
          (alerts w) (console w).
Definition set_faults (f : list bool -> list bool) (w : World) : World :=
  mkWorld (storage w) (f (faults w)) (now w) (randoms w) (toLocaleString w) (ble w) (screen w)
          (alerts w) (console w).
Definition set_now (t : Z) (w : World) : World :=
  mkWorld (storage w) (faults w) t (randoms w) (toLocaleString w) (ble w) (screen w)
          (alerts w) (console w).
Definition set_randoms (f : list string -> list string) (w : World) : World :=
  mkWorld (storage w) (faults w) (now w) (f (randoms w)) (toLocaleString w) (ble w) (screen w)
          (alerts w) (console w).
Definition set_ble (f : Ble -> Ble) (w : World) : World :=
  mkWorld (storage w) (faults w) (now w) (randoms w) (toLocaleString w) (f (ble w)) (screen w)
          (alerts w) (console w).
Definition set_screen (f : Screen -> Screen) (w : World) : World :=
  mkWorld (storage w) (faults w) (now w) (randoms w) (toLocaleString w) (ble w)
          (f (screen w))
          (alerts w) (console w).
Definition add_alert (a : string * string) (w : World) : World :=
  mkWorld (storage w) (faults w) (now w) (randoms w) (toLocaleString w) (ble w) (screen w)
          (alerts w ++ [a]) (console w).
Definition add_console (line : string) (w : World) : World :=
  mkWorld (storage w) (faults w) (now w) (randoms w) (toLocaleString w) (ble w) (screen w)
          (alerts w) (console w ++ [line]).

(** ** Completions and the [JS] monad *)

Inductive Completion (A : Type) :=
| Normal (a : A)
| Throw (error : string).
Arguments Normal {A} a.
Arguments Throw {A} error.

Definition JS (A : Type) : Type := World -> Completion A * World.

Definition ret {A} (a : A) : JS A := fun w => (Normal a, w).
Definition throw {A} (e : string) : JS A := fun w => (Throw e, w).
Definition bind {A B} (m : JS A) (k : A -> JS B) : JS B :=
  fun w => match m w with
           | (Normal a, w') => k a w'
           | (Throw e, w') => (Throw e, w')
           end.
Definition try_catch {A} (body : JS A) (handler : string -> JS A) : JS A :=
  fun w => match body w with
           | (Normal a, w') => (Normal a, w')
           | (Throw e, w') => handler e w'
           end.
Definition modify (f : World -> World) : JS unit := fun w => (Normal tt, f w).
Definition gets {A} (f : World -> A) : JS A := fun w => (Normal (f w), w).

Notation "'let*' x := m 'in' k" := (bind m (fun x => k))
  (at level 10, x name, m at level 100, k at level 200).
Notation "m ;; k" := (bind m (fun _ => k))
  (at level 100, k at level 200, right associativity).

(** A native call: rejects when the oracle says so, resolves otherwise. *)
Definition native (what : string) : JS unit :=
  fun w => match faults w with
           | true :: rest => (Throw what, set_faults (fun _ => rest) w)
           | false :: rest => (Normal tt, set_faults (fun _ => rest) w)
           | [] => (Normal tt, w)
           end.

Definition console_error (line : string) : JS unit := modify (add_console line).
Definition console_log (line : string) : JS unit := modify (add_console line).
Definition Alert_alert (title message : string) : JS unit :=
  modify (add_alert (title, message)).
Definition Date_now : JS Z := gets now.

(** [Math.random().toString(36).substr(2, 9)]: the next suffix of the oracle. *)
Definition random_suffix : JS string :=
  fun w => match randoms w with
           | s :: rest => (Normal s, set_randoms (fun _ => rest) w)
           | [] => (Normal "", w)
           end.

(** ** Strings and numbers of the JavaScript runtime *)

Definition lower_char (c : ascii) : ascii :=
  let n := nat_of_ascii c in
  if ((65 <=? n) && (n <=? 90))%nat then ascii_of_nat (n + 32) else c.
Definition upper_char (c : ascii) : ascii :=
  let n := nat_of_ascii c in
  if ((97 <=? n) && (n <=? 122))%nat then ascii_of_nat (n - 32) else c.

Fixpoint string_map (f : ascii -> ascii) (s : string) : string :=
  match s with
  | EmptyString => EmptyString
  | String c s' => String (f c) (string_map f s')
  end.

Definition toLowerCase : string -> string := string_map lower_char.
Definition toUpperCase : string -> string := string_map upper_char.

(** [s.substring(a, b)] for [a <= b]. *)
Definition js_substring (a b : nat) (s : string) : string :=
  String.substring a (b - a) s.

Fixpoint repeat_char (c : ascii) (n : nat) : string :=
  match n with
  | O => EmptyString
  | S n' => String c (repeat_char c n')
  end.

(** [s.padStart(n, c)] for a one-character pad string. *)
Definition padStart (n : nat) (c : ascii) (s : string) : string :=
  repeat_char c (n - String.length s) ++ s.

(** [parts.join(sep)]. *)
Fixpoint join (sep : string) (parts : list string) : string :=
  match parts with
  | [] => ""
  | [p] => p
  | p :: rest => p ++ sep ++ join sep rest
  end.

(** [n.toString(16)] for an integer [n]. *)
Definition toString16 (n : Z) : string :=
  match n with
  | Z0 => "0"
  | Zpos p => HexString.Raw.of_pos p ""
  | Zneg p => "-" ++ HexString.Raw.of_pos p ""
  end.

(** [n.toString()] for an integer [n]. *)
Definition toString10 (n : Z) : string :=
  match n with
  | Z0 => "0"
  | _ => NilEmpty.string_of_int (Z.to_int n)
  end.

(** ToInt32 of ECMA-262, on integers. *)
Definition ToInt32 (n : Z) : Z :=
  let m := n mod 2 ^ 32 in
  if m <? 2 ^ 31 then m else m - 2 ^ 32.

(** ToInt32 of an array element; [undefined] converts to 0. *)
Definition ToInt32_elem (x : option Z) : Z :=
  match x with
  | Some n => ToInt32 n
  | None => 0
  end.

(** [a << k] and [a | b]. *)
Definition js_shl (a : option Z) (k : Z) : Z :=
  ToInt32 (Z.shiftl (ToInt32_elem a) (k mod 32)).
Definition js_or (a : Z) (b : option Z) : Z :=
  Z.lor (ToInt32 a) (ToInt32_elem b).

(** [x !== k] for an array element [x] and a number literal [k]. *)
Definition strict_neq (x : option Z) (k : Z) : bool :=
  match x with
  | Some n => negb (n =? k)
  | None => true
  end.

(** JavaScript white space below code unit 256, as removed by [trim]. *)
Definition is_space (c : ascii) : bool :=
  let n := nat_of_ascii c in
  ((9 <=? n) && (n <=? 13) || (n =? 32) || (n =? 160))%nat.

Fixpoint trimStart (s : string) : string :=
  match s with
  | EmptyString => EmptyString
  | String c s' => if is_space c then trimStart s' else s
  end.

Fixpoint trimEnd (s : string) : string :=
  match s with
  | EmptyString => EmptyString
  | String c s' =>
      match trimEnd s' with
      | EmptyString => if is_space c then EmptyString else String c EmptyString
      | t => String c t
      end
  end.

Definition trim (s : string) : string := trimEnd (trimStart s).

(** ** src/utils/uuidUtils.ts *)

Module uuidUtils.

(** The character class [[0-9A-F]] under the [i] flag. *)
Definition is_hex (c : ascii) : bool :=
  let n := nat_of_ascii c in
  ((48 <=? n) && (n <=? 57) || (65 <=? n) && (n <=? 70)
   || (97 <=? n) && (n <=? 102))%nat.

(** Match exactly [n] hexadecimal digits, return the rest. *)
Fixpoint hex_group (n : nat) (s : string) : option string :=
  match n with
  | O => Some s
  | S n' =>
      match s with
      | String c s' => if is_hex c then hex_group n' s' else None
      | EmptyString => None
      end
  end.

Definition hyphen (s : string) : option string :=
  match s with
  | String "-"%char s' => Some s'
  | _ => None
  end.

(** [/^[0-9A-F]{8}-[0-9A-F]{4}-[0-9A-F]{4}-[0-9A-F]{4}-[0-9A-F]{12}$/i] *)
Definition isValidUUID (uuid : string) : bool :=
  match
    s1 ← hex_group 8 uuid; s1 ← hyphen s1;
    s2 ← hex_group 4 s1; s2 ← hyphen s2;
    s3 ← hex_group 4 s2; s3 ← hyphen s3;
    s4 ← hex_group 4 s3; s4 ← hyphen s4;
    hex_group 12 s4
  with
  | Some EmptyString => true
  | _ => false
  end.

(** [uuid.replace(/-/g, '')] *)
Fixpoint remove_hyphens (s : string) : string :=
  match s with
  | EmptyString => EmptyString
  | String "-"%char s' => remove_hyphens s'
  | String c s' => String c (remove_hyphens s')
  end.

Definition formatUUID (uuid : string) : string :=
  let cleanUuid := toUpperCase (remove_hyphens uuid) in
  if (String.length cleanUuid =? 32)%nat
  then join "-" [ js_substring 0 8 cleanUuid;
                  js_substring 8 12 cleanUuid;
                  js_substring 12 16 cleanUuid;
                  js_substring 16 20 cleanUuid;
                  js_substring 20 32 cleanUuid ]
  else toUpperCase uuid.

(** [generateUUID]: every [x] or [y] of the pattern is replaced by a
    hexadecimal digit; [nibble i] is [Math.random() * 16 | 0] of the i-th
    replacement. *)
Fixpoint fill_pattern (pattern : string) (nibble : nat -> Z) (i : nat)
  : string :=
  match pattern with
  | EmptyString => EmptyString
  | String c rest =>
      if Ascii.eqb c "x"
      then toString16 (nibble i) ++ fill_pattern rest nibble (S i)
      else if Ascii.eqb c "y"
      then toString16 (Z.lor (Z.land (ToInt32 (nibble i)) 3) 8)
           ++ fill_pattern rest nibble (S i)
      else String c (fill_pattern rest nibble i)
  end.

Definition generateUUID (nibble : nat -> Z) : string :=
  toUpperCase (fill_pattern "xxxxxxxx-xxxx-4xxx-yxxx-xxxxxxxxxxxx" nibble 0).

End uuidUtils.

(** ** src/services/StorageService.ts *)

Module StorageService.

Definition put_SETTINGS (v : option Settings) (s : Storage) : Storage :=
  mkStorage v (SESSIONS s) (CURRENT_SESSION s).
Definition put_SESSIONS (v : option (list Session)) (s : Storage) : Storage :=
  mkStorage (SETTINGS s) v (CURRENT_SESSION s).
Definition put_CURRENT_SESSION (v : option Session) (s : Storage) : Storage :=
  mkStorage (SETTINGS s) (SESSIONS s) v.

(** [AsyncStorage.getItem(key)], [setItem(key, JSON.stringify(v))] and
    [removeItem(key)]; [key] is the projection, [put] the update of the
    slot of that key. *)
Definition getItem {A} (key : Storage -> option A) : JS (option A) :=
  native "AsyncStorage.getItem" ;; gets (fun w => key (storage w)).
Definition setItem {A} (put : option A -> Storage -> Storage) (v : A)
  : JS unit :=
  native "AsyncStorage.setItem" ;; modify (set_storage (put (Some v))).
Definition removeItem {A} (put : option A -> Storage -> Storage) : JS unit :=
  native "AsyncStorage.removeItem" ;; modify (set_storage (put None)).

Definition defaultSettings : Settings :=
  {| targetUuid := "E101B392ADA32224231605EF58774925";
     rssiThreshold := -70 |}.

Definition getSettings : JS Settings :=
  try_catch
    (let* settings := getItem SETTINGS in
     match settings with
     | Some parsed => ret parsed
     | None => ret defaultSettings
     end)
    (fun _ => console_error "Error getting settings:" ;;
              ret defaultSettings).

Definition saveSettings (settings : Settings) : JS unit :=
  try_catch
    (setItem put_SETTINGS settings)
    (fun error => console_error "Error saving settings:" ;; throw error).

Definition getSessions : JS (list Session) :=
  try_catch
    (let* sessions := getItem SESSIONS in
     ret (match sessions with Some parsed => parsed | None => [] end))
    (fun _ => console_error "Error getting sessions:" ;; ret []).

(** [sessions.findIndex(s => s.id === id)]; [None] stands for -1. *)
Fixpoint findIndex (id : string) (sessions : list Session) : option nat :=
  match sessions with
  | [] => None
  | s :: rest =>
      if String.eqb (session_id s) id then Some O
      else match findIndex id rest with
           | Some i => Some (S i)
           | None => None
           end
  end.

Definition saveSession (session : Session) : JS unit :=
  try_catch
    (let* sessions := getSessions in
     let sessions' :=
       match findIndex (session_id session) sessions with
       | Some existingIndex => <[existingIndex := session]> sessions
       | None => (sessions ++ [session])%list
       end in
     setItem put_SESSIONS sessions')
    (fun error => console_error "Error saving session:" ;; throw error).

Definition deleteSession (sessionId : string) : JS unit :=
  try_catch
    (let* sessions := getSessions in
     let filteredSessions :=
       List.filter (fun s => negb (String.eqb (session_id s) sessionId))
                   sessions in
     setItem put_SESSIONS filteredSessions)
    (fun error => console_error "Error deleting session:" ;; throw error).

Definition getCurrentSession : JS (option Session) :=
  try_catch
    (getItem CURRENT_SESSION)
    (fun _ => console_error "Error getting current session:" ;; ret None).

Definition saveCurrentSession (session : option Session) : JS unit :=
  try_catch
    (match session with
     | Some s => setItem put_CURRENT_SESSION s
     | None => removeItem put_CURRENT_SESSION
     end)
    (fun error => console_error "Error saving current session:" ;;
                  throw error).

(** [currentSession.beaconReads.push(beaconRead)] on the freshly parsed
    copy of the stored session. *)
Definition push_read (s : Session) (beaconRead : BeaconRead) : Session :=
  mkSession (session_id s) (session_name s) (startTime s) (endTime s)
            (beaconReads s ++ [beaconRead]).

Definition addBeaconReadToCurrentSession (beaconRead : BeaconRead)
  : JS unit :=
  try_catch
    (let* currentSession := getCurrentSession in
     match currentSession with
     | Some s => saveCurrentSession (Some (push_read s beaconRead))
     | None => ret tt
     end)
    (fun error =>
       console_error "Error adding beacon read to current session:" ;;
       throw error).

End StorageService.

(** ** src/services/BleService.ts *)

Module BleService.

Definition put_isScanning (v : bool) (b : Ble) : Ble :=
  mkBle v (ble_settings b) (onBeaconFound b) (listeners b).
Definition put_settings (v : option Settings) (b : Ble) : Ble :=
  mkBle (ble_isScanning b) v (onBeaconFound b) (listeners b).
Definition put_onBeaconFound (v : option Callback) (b : Ble) : Ble :=
  mkBle (ble_isScanning b) (ble_settings b) v (listeners b).
Definition addListener (b : Ble) : Ble :=
  mkBle (ble_isScanning b) (ble_settings b) (onBeaconFound b)
        (S (listeners b)).

Definition loadSettings : JS unit :=
  let* settings := StorageService.getSettings in
  modify (set_ble (put_settings (Some settings))).

Definition setBeaconFoundCallback (callback : Callback) : JS unit :=
  modify (set_ble (put_onBeaconFound (Some callback))).

Definition startScanning : JS unit :=
  let* scanning := gets (fun w => ble_isScanning (ble w)) in
  if scanning then console_log "Already scanning"
  else
    loadSettings ;;
    let* settings := gets (fun w => ble_settings (ble w)) in
    match settings with
    | None => throw "Settings not loaded"
    | Some _ =>
        try_catch
          (modify (set_ble (put_isScanning true)) ;;
           native "BleManager.scan" ;;
           console_log "Started BLE scanning" ;;
           modify (set_ble addListener))
          (fun error =>
             modify (set_ble (put_isScanning false)) ;;
             console_error "Error starting scan:" ;;
             throw error)
    end.

(** [bytes.map(b => b.toString(16).padStart(2, '0')).join('')] *)
Definition hex_of_bytes (bytes : list Z) : string :=
  join "" (List.map (fun b => padStart 2 "0" (toString16 b)) bytes).

Definition bytesToUUID (bytes : list Z) : string :=
  let hex := hex_of_bytes bytes in
  toUpperCase
    (join "-" [ js_substring 0 8 hex;
                js_substring 8 12 hex;
                js_substring 12 16 hex;
                js_substring 16 20 hex;
                js_substring 20 32 hex ]).

(** [a.slice(from, to)] for [from <= to]. *)
Definition slice {A} (from to : nat) (a : list A) : list A :=
  take (to - from) (drop from a).

(** Reading a property of [null] or [undefined] throws a TypeError. *)
Definition property_of {A} (x : option A) : JS A :=
  match x with
  | Some obj => ret obj
  | None => throw "TypeError"
  end.

Definition parseIBeaconData (peripheral : option Peripheral)
  : JS (option BeaconData) :=
  try_catch
    (let* p := property_of peripheral in
     let advertisingData :=
       match advertising p with
       | Some a => a
       | None => mkAdvertising None
       end in
     match manufacturerData advertisingData with
     | None => ret None
     | Some md =>
         if (length md <? 25)%nat then ret None
         else if strict_neq (md !! 0%nat) 0x4C || strict_neq (md !! 1%nat) 0x00
         then ret None
         else if strict_neq (md !! 2%nat) 0x02 || strict_neq (md !! 3%nat) 0x15
         then ret None
         else
           let uuidBytes := slice 4 20 md in
           let uuid := bytesToUUID uuidBytes in
           let major := js_or (js_shl (md !! 20%nat) 8) (md !! 21%nat) in
           let minor := js_or (js_shl (md !! 22%nat) 8) (md !! 23%nat) in
           ret (Some {| uuid := uuid;
                        major := major;
                        minor := minor;
                        beacon_rssi := match rssi p with
                                       | Some r => r
                                       | None => 0
                                       end |})
     end)
    (fun _ => console_error "Error parsing iBeacon data:" ;; ret None).

(** The two early returns of [handlePeripheralDiscovered]: the UUID filter
    and the RSSI threshold.  [true] when neither fires. *)
Definition uuid_differs (beaconData : BeaconData) (settings : Settings)
  : bool :=
  negb (String.eqb (toLowerCase (uuid beaconData))
                   (toLowerCase (targetUuid settings))).
Definition rssi_below (beaconData : BeaconData) (settings : Settings)
  : bool :=
  beacon_rssi beaconData <? rssiThreshold settings.
Definition accept (beaconData : BeaconData) (settings : Settings) : bool :=
  if uuid_differs beaconData settings then false
  else if rssi_below beaconData settings then false
  else true.

(** [this.onBeaconFound(beaconRead)] *)
Definition invoke (callback : Callback) (beaconRead : BeaconRead)
  : JS unit :=
  match callback with
  | PrependBeaconRead =>
      modify (set_screen (fun s =>
        mkScreen (isScanning s) (currentSession s)
                 (beaconRead :: screen_beaconReads s)
                 (bluetoothState s) (showSaveModal s) (sessionName s)))
  end.

(** The [BeaconRead] built from an accepted advertisement. *)
Definition createBeaconRead (beaconData : BeaconData) : JS BeaconRead :=
  let* t := Date_now in
  let* suffix := random_suffix in
  let* timestamp := Date_now in
  ret {| read_id := toString10 t ++ "_" ++ suffix;
         read_uuid := uuid beaconData;
         read_major := major beaconData;
         read_minor := minor beaconData;
         read_rssi := beacon_rssi beaconData;
         read_timestamp := timestamp |}.

(** Store the read, then notify the callback registered at that time. *)
Definition record (beaconData : BeaconData) : JS unit :=
  let* beaconRead := createBeaconRead beaconData in
  StorageService.addBeaconReadToCurrentSession beaconRead ;;
  let* callback := gets (fun w => onBeaconFound (ble w)) in
  match callback with
  | Some f => invoke f beaconRead
  | None => throw "TypeError"
  end.

Definition handlePeripheralDiscovered (peripheral : option Peripheral)
  : JS unit :=
  let* b := gets ble in
  match ble_settings b, onBeaconFound b with
  | Some settings, Some _ =>
      try_catch
        (let* beaconData := parseIBeaconData peripheral in
         match beaconData with
         | Some beaconData =>
             if uuid_differs beaconData settings then ret tt
             else if rssi_below beaconData settings then ret tt
             else record beaconData
         | None => ret tt
         end)
        (fun _ => console_error "Error handling peripheral discovery:")
  | _, _ => ret tt
  end.

Definition initialize : JS unit :=
  try_catch
    (native "BleManager.start" ;;
     console_log "BLE Manager initialized")
    (fun error => console_error "Error initializing BLE Manager:" ;;
                  throw error).

(** [requestPermissions]: on Android every permission of the answer
    [granted] must be GRANTED; iOS needs no request. *)
Definition requestPermissions (android : bool) (granted : list bool)
  : JS bool :=
  if android
  then native "PermissionsAndroid.requestMultiple" ;;
       ret (forallb (fun permission => permission) granted)
  else ret true.

Definition stopScanning : JS unit :=
  let* scanning := gets (fun w => ble_isScanning (ble w)) in
  if negb scanning then console_log "Not currently scanning"
  else
    try_catch
      (native "BleManager.stopScan" ;;
       modify (set_ble (put_isScanning false)) ;;
       console_log "Stopped BLE scanning")
      (fun error => console_error "Error stopping scan:" ;; throw error).

Definition isCurrentlyScanning : JS bool :=
  gets (fun w => ble_isScanning (ble w)).

(** [getBluetoothState]; [state] is what [BleManager.checkState()]
    resolves to. *)
Definition getBluetoothState (state : string) : JS string :=
  try_catch
    (native "BleManager.checkState" ;; ret state)
    (fun _ => console_error "Error checking Bluetooth state:" ;;
              ret "unknown").

End BleService.

(** ** src/screens/ScanningScreen.tsx *)

Module ScanningScreen.

Definition setIsScanning (v : bool) (s : Screen) : Screen :=
  mkScreen v (currentSession s) (screen_beaconReads s) (bluetoothState s)
           (showSaveModal s) (sessionName s).
Definition setCurrentSession (v : option Session) (s : Screen) : Screen :=
  mkScreen (isScanning s) v (screen_beaconReads s) (bluetoothState s)
           (showSaveModal s) (sessionName s).
Definition setBeaconReads (v : list BeaconRead) (s : Screen) : Screen :=
  mkScreen (isScanning s) (currentSession s) v (bluetoothState s)
           (showSaveModal s) (sessionName s).
Definition setShowSaveModal (v : bool) (s : Screen) : Screen :=
  mkScreen (isScanning s) (currentSession s) (screen_beaconReads s)
           (bluetoothState s) v (sessionName s).
Definition setSessionName (v : string) (s : Screen) : Screen :=
  mkScreen (isScanning s) (currentSession s) (screen_beaconReads s)
           (bluetoothState s) (showSaveModal s) v.

Definition startScanning : JS unit :=
  try_catch
    (let* bluetooth := gets (fun w => bluetoothState (screen w)) in
     if negb (String.eqb bluetooth "on")
     then Alert_alert "Bluetooth Required" "Please enable Bluetooth first"
     else
       (let* current := gets (fun w => currentSession (screen w)) in
        match current with
        | None =>
            let* t := Date_now in
            let* format := gets toLocaleString in
            let newSession :=
              {| session_id := "session_" ++ toString10 t;
                 session_name := "Session " ++ format t;
                 startTime := t;
                 endTime := None;
                 beaconReads := [] |} in
            modify (set_screen (setCurrentSession (Some newSession))) ;;
            StorageService.saveCurrentSession (Some newSession)
        | Some _ => ret tt
        end) ;;
       BleService.startScanning ;;
       modify (set_screen (setIsScanning true)))
    (fun _ => console_error "Error starting scan:" ;;
              Alert_alert "Error" "Failed to start scanning").

Definition saveSession : JS unit :=
  let* name := gets (fun w => sessionName (screen w)) in
  if String.eqb (trim name) ""
  then Alert_alert "Error" "Please enter a session name"
  else
    let* current := gets (fun w => currentSession (screen w)) in
    match current with
    | None => Alert_alert "Error" "No active session to save"
    | Some current =>
        try_catch
          (let* t := Date_now in
           let sessionToSave :=
             {| session_id := session_id current;
                session_name := trim name;
                startTime := startTime current;
                endTime := Some t;
                beaconReads := beaconReads current |} in
           StorageService.saveSession sessionToSave ;;
           StorageService.saveCurrentSession None ;;
           modify (set_screen (setCurrentSession None)) ;;
           modify (set_screen (setBeaconReads [])) ;;
           modify (set_screen (setShowSaveModal false)) ;;
           modify (set_screen (setSessionName "")) ;;
           Alert_alert "Success" "Session saved successfully")
          (fun _ => console_error "Error saving session:" ;;
                    Alert_alert "Error" "Failed to save session")
    end.

(** The [onPress] handler of the destructive "Clear" button. *)
Definition clearCurrentSession_onPress : JS unit :=
  try_catch
    (StorageService.saveCurrentSession None ;;
     modify (set_screen (setCurrentSession None)) ;;
     modify (set_screen (setBeaconReads [])))
    (fun _ => console_error "Error clearing session:" ;;
              Alert_alert "Error" "Failed to clear session").

(** [clearCurrentSession]: the confirmation dialog, then what the
    operator chose. *)
Definition clearCurrentSession (confirmed : bool) : JS unit :=
  Alert_alert "Clear Session"
    "Are you sure you want to clear the current session? This action cannot be undone." ;;
  if confirmed then clearCurrentSession_onPress else ret tt.

Definition setBluetoothState (v : string) (s : Screen) : Screen :=
  mkScreen (isScanning s) (currentSession s) (screen_beaconReads s) v
           (showSaveModal s) (sessionName s).

Definition stopScanning : JS unit :=
  try_catch
    (BleService.stopScanning ;;
     modify (set_screen (setIsScanning false)))
    (fun _ => console_error "Error stopping scan:" ;;
              Alert_alert "Error" "Failed to stop scanning").

(** [initializeApp].  [android], [granted] and [state] are the platform,
    its answer to the permission request and the Bluetooth state it
    reports.  The result tells whether [setIsInitialized(true)] was
    reached. *)
Definition initializeApp (android : bool) (granted : list bool)
           (state : string) : JS bool :=
  try_catch
    (BleService.initialize ;;
     let* hasPermissions := BleService.requestPermissions android granted in
     if negb hasPermissions
     then Alert_alert "Permissions Required"
            "Bluetooth and location permissions are required for beacon scanning." ;;
          ret false
     else
       let* state := BleService.getBluetoothState state in
       modify (set_screen (setBluetoothState state)) ;;
       if negb (String.eqb state "on")
       then Alert_alert "Bluetooth Required"
              "Please enable Bluetooth to scan for beacons." ;;
            ret false
       else
         BleService.setBeaconFoundCallback PrependBeaconRead ;;
         let* session := StorageService.getCurrentSession in
         match session with
         | Some s =>
             modify (set_screen (setCurrentSession (Some s))) ;;
             modify (set_screen (setBeaconReads (beaconReads s)))
         | None => ret tt
         end ;;
         ret true)
    (fun _ => console_error "Error initializing app:" ;;
              Alert_alert "Error" "Failed to initialize the app" ;;
              ret false).

End ScanningScreen.

(** ** Driving the application *)

(** What the operator, the radio and the clock do to the application. *)
Inductive Event :=
| Tick (t : Z)
| PressStart
| Discover (peripheral : option Peripheral)
| TypeName (text : string)
| PressSave
| PressClear (confirmed : bool).

(** The emitter calls every listener that [addListener] registered. *)
Fixpoint emit (n : nat) (peripheral : option Peripheral) : JS unit :=
  match n with
  | O => ret tt
  | S n' => BleService.handlePeripheralDiscovered peripheral ;;
            emit n' peripheral
  end.

Definition fire (e : Event) : JS unit :=
  match e with
  | Tick t => modify (set_now t)
  | PressStart => ScanningScreen.startScanning
  | Discover peripheral =>
      let* n := gets (fun w => listeners (ble w)) in emit n peripheral
  | TypeName text => modify (set_screen (ScanningScreen.setSessionName text))
  | PressSave => ScanningScreen.saveSession
  | PressClear confirmed => ScanningScreen.clearCurrentSession confirmed
  end.

Fixpoint run (events : list Event) (w : World) : World :=
  match events with
  | [] => w
  | e :: rest => run rest (snd (fire e w))
  end.

(** ** [addBeaconReadToCurrentSession] on the event loop

    An [async] function runs until its next [await] and is resumed later;
    between the two the event loop may resume another call.  A call of
    [addBeaconReadToCurrentSession] is suspended twice: at
    [await this.getCurrentSession()] and at
    [await this.saveCurrentSession(currentSession)]. *)

Inductive AddCall :=
| AwaitGetCurrentSession (beaconRead : BeaconRead)
| AwaitSaveCurrentSession (beaconRead : BeaconRead)
                          (currentSession : option Session)
| Settled (result : Completion unit).

Definition rethrow (error : string) : JS unit :=
  console_error "Error adding beacon read to current session:" ;;
  throw error.

(** One turn of the event loop for a call: the awaited storage operation
    completes and the call runs on to its next [await]. *)
Definition resume (call : AddCall) (w : World) : AddCall * World :=
  match call with
  | AwaitGetCurrentSession beaconRead =>
      match StorageService.getCurrentSession w with
      | (Normal currentSession, w') =>
          (AwaitSaveCurrentSession beaconRead currentSession, w')
      | (Throw error, w') =>
          let (result, w'') := rethrow error w' in (Settled result, w'')
      end
  | AwaitSaveCurrentSession beaconRead currentSession =>
      let (result, w') :=
        try_catch
          (match currentSession with
           | Some s =>
               StorageService.saveCurrentSession
                 (Some (StorageService.push_read s beaconRead))
           | None => ret tt
           end)
          rethrow w in
      (Settled result, w')
  | Settled result => (Settled result, w)
  end.

(** A schedule names, turn by turn, the call the event loop resumes. *)
Fixpoint schedule (turns : list nat) (calls : list AddCall) (w : World)
  : list AddCall * World :=
  match turns with
  | [] => (calls, w)
  | i :: rest =>
      match calls !! i with
      | Some call =>
          let (call', w') := resume call w in
          schedule rest (<[i := call']> calls) w'
      | None => schedule rest calls w
      end
  end.

Definition all_settled (calls : list AddCall) : bool :=
  forallb (fun c => match c with
                    | Settled (Normal _) => true
                    | _ => false
                    end) calls.

(** Calls that do not overlap: each is awaited before the next starts. *)
Fixpoint in_sequence (reads : list BeaconRead) : JS unit :=
  match reads with
  | [] => ret tt
  | r :: rest => StorageService.addBeaconReadToCurrentSession r ;;
                 in_sequence rest
  end.

(** The reads of the session stored under CURRENT_SESSION. *)
Definition stored_reads (w : World) : option (list BeaconRead) :=
  beaconReads <$> CURRENT_SESSION (storage w).

(** ** Vocabulary of the specification *)

(** Two characters are the same letter when they are equal or are the upper
    and the lower case of one ASCII letter. *)
Definition is_upper_letter (c : ascii) : Prop :=
  (65 <= nat_of_ascii c <= 90)%nat.
Definition same_letter (c d : ascii) : Prop :=
  c = d
  \/ (is_upper_letter c /\ nat_of_ascii d = nat_of_ascii c + 32)%nat
  \/ (is_upper_letter d /\ nat_of_ascii c = nat_of_ascii d + 32)%nat.

(** Case-insensitive equality of strings. *)
Inductive eq_ignore_case : string -> string -> Prop :=
| eic_empty : eq_ignore_case "" ""
| eic_char c d s t :
    same_letter c d -> eq_ignore_case s t ->
    eq_ignore_case (String c s) (String d t).

(** The advertisement passes the configured criteria. *)
Definition meets_criteria (beaconData : BeaconData) (settings : Settings)
  : Prop :=
  eq_ignore_case (uuid beaconData) (targetUuid settings)
  /\ rssiThreshold settings <= beacon_rssi beaconData.

(** A byte of a frame. *)
Definition is_byte (b : Z) : Prop := 0 <= b < 256.

(** Upper-case hexadecimal digit of a nibble. *)
Definition hex_digit (n : Z) : ascii :=
  match n with
  | 0 => "0" | 1 => "1" | 2 => "2" | 3 => "3"
  | 4 => "4" | 5 => "5" | 6 => "6" | 7 => "7"
  | 8 => "8" | 9 => "9" | 10 => "A" | 11 => "B"
  | 12 => "C" | 13 => "D" | 14 => "E" | _ => "F"
  end%char.

(** Two hexadecimal digits per byte, high nibble first. *)
Fixpoint hex_upper (bytes : list Z) : string :=
  match bytes with
  | [] => ""
  | b :: rest =>
      String (hex_digit (b / 16)) (String (hex_digit (b mod 16))
                                          (hex_upper rest))
  end.

(** The canonical rendering of a 16-byte UUID: byte groups 4-2-2-2-6,
    that is 8-4-4-4-12 hexadecimal digits, joined by hyphens. *)
Definition canonical_uuid (bytes : list Z) : string :=
  (hex_upper (take 4 bytes) ++ "-" ++
   hex_upper (take 2 (drop 4 bytes)) ++ "-" ++
   hex_upper (take 2 (drop 6 bytes)) ++ "-" ++
   hex_upper (take 2 (drop 8 bytes)) ++ "-" ++
   hex_upper (take 6 (drop 10 bytes)))%string.

(** Unsigned big-endian 16-bit integer of two bytes. *)
Definition big_endian16 (hi lo : Z) : Z := 256 * hi + lo.

(** The frame [4C 00 02 15 ...] of at least 25 bytes. *)
Definition is_iBeacon_frame (md : list Z) : Prop :=
  (25 <= length md)%nat
  /\ md !! 0%nat = Some 0x4C /\ md !! 1%nat = Some 0x00
  /\ md !! 2%nat = Some 0x02 /\ md !! 3%nat = Some 0x15.

(** The peripheral the scan source reports for manufacturer data [md]
    received at signal strength [signal]. *)
Definition discovered (md : list Z) (signal : option Z) : option Peripheral :=
  Some {| advertising := Some {| manufacturerData := Some md |};
          rssi := signal |}.

(** The default criteria as the specification gives them. *)
Definition canonical_default_uuid : string :=
  "E101B392-ADA3-2224-2316-05EF58774925".

(** A name that is empty or consists of white space only. *)
Definition is_blank (s : string) : Prop :=
  forall c, In c (list_ascii_of_string s) -> is_space c = true.

(** The settings a scan uses: what is stored, else the defaults. *)
Definition settings_in_effect (w : World) : Settings :=
  match SETTINGS (storage w) with
  | Some s => s
  | None => StorageService.defaultSettings
  end.

(** The advertisement of [peripheral] is decoded and accepted under
    [settings]. *)
Definition accepted_under (settings : Settings)
           (peripheral : option Peripheral) : Prop :=
  exists beaconData,
    (forall w, BleService.parseIBeaconData peripheral w
               = (Normal (Some beaconData), w))
    /\ BleService.accept beaconData settings = true.

(** The [catch] block of [handlePeripheralDiscovered]. *)
Definition on_discovery_error : string -> JS unit :=
  fun _ => console_error "Error handling peripheral discovery:".

(** [record] N times: the clock moves, then an advertisement arrives. *)
Fixpoint recordings (arrivals : list (Z * option Peripheral)) : list Event :=
  match arrivals with
  | [] => []
  | (t, peripheral) :: rest => Tick t :: Discover peripheral :: recordings rest
  end.

(** The schedule that runs [n] calls one after the other, starting with
    call [i]. *)
Fixpoint one_at_a_time (i n : nat) : list nat :=
  match n with
  | O => []
  | S n' => i :: i :: one_at_a_time (S i) n'
  end.

(** ** Fixtures *)

Definition fixture_uuid_bytes : list Z :=
  [0xE1; 0x01; 0xB3; 0x92; 0xAD; 0xA3; 0x22; 0x24;
   0x23; 0x16; 0x05; 0xEF; 0x58; 0x77; 0x49; 0x25].

(** [4C 00 02 15], the UUID, major 0x1234, minor 0xFFFE, tx power. *)
Definition fixture_frame : list Z :=
  [0x4C; 0x00; 0x02; 0x15] ++ fixture_uuid_bytes
  ++ [0x12; 0x34; 0xFF; 0xFE; 0xC5].

(** The application after [initializeApp] with Bluetooth on and no session
    in progress: the callback is registered, nothing scans yet. *)
Definition initialised (stored : Storage) (oracle : list bool) (t : Z)
  : World :=
  {| storage := stored;
     faults := oracle;
     now := t;
     randoms := ["k3j9x0q2a"; "p07zd41mw"; "b8c5t2y6e"];
     toLocaleString := fun _ => "1/1/2026, 12:00:00 AM";
     ble := {| ble_isScanning := false; ble_settings := None;
               onBeaconFound := Some PrependBeaconRead; listeners := 0 |};
     screen := {| isScanning := false; currentSession := None;
                  screen_beaconReads := []; bluetoothState := "on";
                  showSaveModal := false; sessionName := "" |};
     alerts := [];
     console := [] |}.

Definition empty_storage : Storage :=
  {| SETTINGS := None; SESSIONS := None; CURRENT_SESSION := None |}.

(** Storage in which the operator saved the hyphenated target UUID. *)
Definition configured_storage : Storage :=
  {| SETTINGS := Some {| targetUuid := "e101b392-ada3-2224-2316-05ef58774925";
                         rssiThreshold := -70 |};
     SESSIONS := None;
     CURRENT_SESSION := None |}.

(** ** Sessions in the scenarios *)

(** The session [startScanning] opens in world [w]. *)
Definition opened_session (w : World) : Session :=
  {| session_id := "session_" ++ toString10 (now w);
     session_name := "Session " ++ toLocaleString w (now w);
     startTime := now w;
     endTime := None;
     beaconReads := [] |}.

Definition with_reads (s : Session) (reads : list BeaconRead) : Session :=
  {| session_id := session_id s; session_name := session_name s;
     startTime := startTime s; endTime := endTime s; beaconReads := reads |}.

(** Idle, initialised, Bluetooth on, no native call about to fail. *)
Definition ready_to_start (w : World) : Prop :=
  bluetoothState (screen w) = "on"
  /\ currentSession (screen w) = None
  /\ faults w = []
  /\ ble_isScanning (ble w) = false
  /\ onBeaconFound (ble w) = Some PrependBeaconRead
  /\ listeners (ble w) = 0%nat.

(** A scan under [settings] records into the session [opened]: the screen
    holds [opened] as it was created, the storage holds it with the [n]
    reads recorded so far, and [saved] is the saved-sessions entry. *)
Definition recording_into (opened : Session) (settings : Settings)
           (saved : option (list Session)) (n : nat) (w : World) : Prop :=
  faults w = []
  /\ ble_settings (ble w) = Some settings
  /\ onBeaconFound (ble w) = Some PrependBeaconRead
  /\ listeners (ble w) = 1%nat
  /\ currentSession (screen w) = Some opened
  /\ SESSIONS (storage w) = saved
  /\ exists reads,
       CURRENT_SESSION (storage w) = Some (with_reads opened reads)
       /\ length reads = n.

Definition read_a : BeaconRead :=
  {| read_id := "1005_k3j9x0q2a";
     read_uuid := "E101B392-ADA3-2224-2316-05EF58774925";
     read_major := 0x1234; read_minor := 0xFFFE; read_rssi := -60;
     read_timestamp := 1005 |}.

Definition read_b : BeaconRead :=
  {| read_id := "1005_p07zd41mw";
     read_uuid := "E101B392-ADA3-2224-2316-05EF58774925";
     read_major := 0x1234; read_minor := 0xFFFE; read_rssi := -64;
     read_timestamp := 1005 |}.

(** Storage with an empty session in progress. *)
Definition session_in_progress : Session :=
  {| session_id := "session_1000";
     session_name := "Session 1/1/2026, 12:00:00 AM";
     startTime := 1000; endTime := None; beaconReads := [] |}.

Definition recording_storage : Storage :=
  {| SETTINGS := SETTINGS configured_storage;
     SESSIONS := None;
     CURRENT_SESSION := Some session_in_progress |}.

(** ** src/screens/SettingsScreen.tsx *)

Module SettingsScreen.



(** [loadSettings]: the value put into the [settings] cell. *)
Definition loadSettings : JS (option Settings) :=
  try_catch
    (let* savedSettings := StorageService.getSettings in
     ret (Some savedSettings))
    (fun _ => console_error "Error loading settings:" ;;
              Alert_alert "Error" "Failed to load settings" ;;
              ret None).

(** [saveSettings], for the value of the [settings] cell. *)
Definition saveSettings (settings : Settings) : JS unit :=
  try_catch
    (if negb (uuidUtils.isValidUUID (targetUuid settings))
     then Alert_alert "Invalid UUID"
            "Please enter a valid UUID format (e.g., E101B392-ADA3-2224-2316-05EF58774925)"
     else if (rssiThreshold settings <? -100) || (rssiThreshold settings >? 0)
     then Alert_alert "Invalid RSSI"
            "RSSI threshold must be between -100 and 0 dBm"
     else
       StorageService.saveSettings settings ;;
       Alert_alert "Success" "Settings saved successfully")
    (fun _ => console_error "Error saving settings:" ;;
              Alert_alert "Error" "Failed to save settings").

End SettingsScreen.

(** ** src/screens/SessionsScreen.tsx *)

Module SessionsScreen.

(** [sessions.sort((a, b) => b.startTime - a.startTime)].  The sort of
    ECMAScript is stable, so its result is the one stable ordering; it is
    computed here by insertion. *)
Fixpoint insert_session (a : Session) (sorted : list Session) : list Session :=
  match sorted with
  | [] => [a]
  | b :: rest =>
      if startTime a - startTime b <? 0
      then b :: insert_session a rest
      else a :: b :: rest
  end.

Fixpoint sort_sessions (sessions : list Session) : list Session :=
  match sessions with
  | [] => []
  | a :: rest => insert_session a (sort_sessions rest)
  end.

(** [loadSessions]: the list put into the [sessions] cell. *)
Definition loadSessions : JS (option (list Session)) :=
  try_catch
    (let* savedSessions := StorageService.getSessions in
     ret (Some (sort_sessions savedSessions)))
    (fun _ => console_error "Error loading sessions:" ;;
              Alert_alert "Error" "Failed to load sessions" ;;
              ret None).

(** The [onPress] handler of the destructive "Delete" button. *)
Definition deleteSession_onPress (sessionId : string)
  : JS (option (list Session)) :=
  try_catch
    (StorageService.deleteSession sessionId ;;
     let* reloaded := loadSessions in
     Alert_alert "Success" "Session deleted successfully" ;;
     ret reloaded)
    (fun _ => console_error "Error deleting session:" ;;
              Alert_alert "Error" "Failed to delete session" ;;
              ret None).

(** [Math.floor(duration / 60000)] and
    [Math.floor((duration % 60000) / 1000)]; [%] takes the sign of the
    dividend. *)
Definition duration_minutes (duration : Z) : Z := duration / 60000.
Definition duration_seconds (duration : Z) : Z :=
  Z.rem duration 60000 / 1000.

(** [endTime || Date.now()]: a missing end time, and the end time 0, are
    replaced by the clock. *)
Definition end_or_now (endTime : option Z) (clock : Z) : Z :=
  match endTime with
  | Some t => if t =? 0 then clock else t
  | None => clock
  end.

Definition formatDuration (startTime : Z) (endTime : option Z) : JS string :=
  let* clock := Date_now in
  let duration := end_or_now endTime clock - startTime in
  let minutes := duration_minutes duration in
  let seconds := duration_seconds duration in
  ret (toString10 minutes ++ "m " ++ toString10 seconds ++ "s").

End SessionsScreen.

(** ** Further vocabulary *)

(** The first stored session with the given id. *)
Definition session_with_id (id : string) (sessions : list Session)
  : option Session :=
  List.find (fun s => String.eqb (session_id s) id) sessions.

(** The saved-sessions collection as [getSessions] reads it. *)
Definition saved_sessions (w : World) : list Session :=
  match SESSIONS (storage w) with
  | Some sessions => sessions
  | None => []
  end.

(** Sessions in order of recency: start times never increase. *)
Definition by_recency (a b : Session) : Prop := startTime b <= startTime a.

(** A string without hyphens. *)
Definition hyphen_free (s : string) : Prop :=
  forall c, In c (list_ascii_of_string s) -> c <> "-"%char.

(** Hexadecimal digits only. *)
Definition all_hex (s : string) : Prop :=
  forall c, In c (list_ascii_of_string s) -> uuidUtils.is_hex c = true.

(** Five groups of 8, 4, 4, 4 and 12 hexadecimal digits, joined by
    hyphens. *)
Definition canonical_shape (s : string) : Prop :=
  exists g1 g2 g3 g4 g5,
    s = (g1 ++ "-" ++ g2 ++ "-" ++ g3 ++ "-" ++ g4 ++ "-" ++ g5)%string
    /\ String.length g1 = 8%nat /\ String.length g2 = 4%nat
    /\ String.length g3 = 4%nat /\ String.length g4 = 4%nat
    /\ String.length g5 = 12%nat
    /\ all_hex g1 /\ all_hex g2 /\ all_hex g3 /\ all_hex g4 /\ all_hex g5.

(** The read meets the criteria the scan was started with. *)
Definition read_meets_criteria (r : BeaconRead) (settings : Settings) : Prop :=
  eq_ignore_case (read_uuid r) (targetUuid settings)
  /\ rssiThreshold settings <= read_rssi r.



(** The n-th character of a string. *)
Definition char_at (n : nat) (s : string) : option ascii := String.get n s.

(** * Properties *)

(** ** Characters and case *)

Lemma nat_of_ascii_lt (c : ascii) : (nat_of_ascii c < 256)%nat.
Proof. apply nat_ascii_bounded. Qed.

Lemma nat_of_ascii_inj (c d : ascii) : nat_of_ascii c = nat_of_ascii d -> c = d.
Proof.
  intros H. rewrite <- (ascii_nat_embedding c), <- (ascii_nat_embedding d).
  now rewrite H.
Qed.

Lemma nat_of_lower_char (c : ascii) :
  nat_of_ascii (lower_char c) =
  (if ((65 <=? nat_of_ascii c) && (nat_of_ascii c <=? 90))%nat
   then nat_of_ascii c + 32 else nat_of_ascii c)%nat.
Proof.
  unfold lower_char. pose proof (nat_of_ascii_lt c).
  destruct ((65 <=? nat_of_ascii c)%nat && (nat_of_ascii c <=? 90)%nat) eqn:E;
    [| reflexivity].
  apply andb_true_iff in E as [_ E]. apply Nat.leb_le in E.
  apply nat_ascii_embedding. lia.
Qed.

Lemma lower_char_same_letter (c d : ascii) :
  lower_char c = lower_char d <-> same_letter c d.
Proof.
  unfold same_letter, is_upper_letter. split.
  - intros H. apply (f_equal nat_of_ascii) in H.
    rewrite !nat_of_lower_char in H.
    destruct (decide (nat_of_ascii c = nat_of_ascii d)) as [E | NE].
    { left. now apply nat_of_ascii_inj. }
    right.
    destruct ((65 <=? nat_of_ascii c)%nat && (nat_of_ascii c <=? 90)%nat) eqn:Ec;
      destruct ((65 <=? nat_of_ascii d)%nat && (nat_of_ascii d <=? 90)%nat) eqn:Ed;
      rewrite ?andb_true_iff, ?andb_false_iff, ?Nat.leb_le, ?Nat.leb_gt in *;
      lia.
  - intros H. apply nat_of_ascii_inj. rewrite !nat_of_lower_char.
    destruct H as [-> | H]; [reflexivity |].
    destruct ((65 <=? nat_of_ascii c)%nat && (nat_of_ascii c <=? 90)%nat) eqn:Ec;
      destruct ((65 <=? nat_of_ascii d)%nat && (nat_of_ascii d <=? 90)%nat) eqn:Ed;
      rewrite ?andb_true_iff, ?andb_false_iff, ?Nat.leb_le, ?Nat.leb_gt in *;
      lia.
Qed.

Lemma toLowerCase_eq_ignore_case (s t : string) :
  toLowerCase s = toLowerCase t <-> eq_ignore_case s t.
Proof.
  unfold toLowerCase. split.
  - revert t. induction s as [| c s IH]; intros [| d t] H; simpl in H;
      try discriminate.
    + constructor.
    + injection H as Hc Hs. constructor.
      * now apply lower_char_same_letter.
      * now apply IH.
  - induction 1 as [| c d s t Hcd _ IH]; [reflexivity |].
    simpl. rewrite IH. f_equal. now apply lower_char_same_letter.
Qed.

(** ** The filter *)

Lemma accept_meets_criteria (beaconData : BeaconData) (settings : Settings) :
  BleService.accept beaconData settings = true
  <-> meets_criteria beaconData settings.
Proof.
  unfold BleService.accept, BleService.uuid_differs, BleService.rssi_below,
    meets_criteria.
  rewrite <- toLowerCase_eq_ignore_case.
  destruct (String.eqb_spec (toLowerCase (uuid beaconData))
                            (toLowerCase (targetUuid settings))) as [E | NE];
    simpl.
  - destruct (Z.ltb_spec (beacon_rssi beaconData) (rssiThreshold settings));
      split; intros; try discriminate; try lia; intuition lia.
  - split; [discriminate | intros [? _]; contradiction].
Qed.

(** ** Integers of the runtime *)

Lemma ToInt32_small (n : Z) : 0 <= n < 2147483648 -> ToInt32 n = n.
Proof.
  intros H. unfold ToInt32.
  change (2 ^ 32) with 4294967296. change (2 ^ 31) with 2147483648.
  rewrite Z.mod_small by lia.
  destruct (Z.ltb_spec n 2147483648); lia.
Qed.

Lemma lor_shifted_byte (hi lo : Z) :
  0 <= hi -> 0 <= lo < 2 ^ 8 -> Z.lor (hi * 2 ^ 8) lo = hi * 2 ^ 8 + lo.
Proof.
  intros Hhi Hlo.
  assert (Z.land (hi * 2 ^ 8) lo = 0) as Hland.
  { apply Z.bits_inj'. intros n Hn. rewrite Z.land_spec, Z.bits_0.
    destruct (Z.lt_ge_cases n 8) as [Hlt | Hge].
    - rewrite Z.mul_pow2_bits_low by lia. reflexivity.
    - rewrite <- (Z.mod_small lo (2 ^ 8)) by lia.
      rewrite Z.mod_pow2_bits_high by lia. apply andb_false_r. }
  pose proof (Z.add_lor_land (hi * 2 ^ 8) lo) as H.
  rewrite Hland, Z.add_0_r in H. exact H.
Qed.

Lemma big_endian_field (hi lo : Z) :
  is_byte hi -> is_byte lo ->
  js_or (js_shl (Some hi) 8) (Some lo) = big_endian16 hi lo.
Proof.
  unfold is_byte, js_or, js_shl, big_endian16, ToInt32_elem. intros Hhi Hlo.
  change (8 mod 32) with 8.
  rewrite (ToInt32_small hi) by lia.
  rewrite Z.shiftl_mul_pow2 by lia.
  rewrite (ToInt32_small (hi * 2 ^ 8)) by (change (2 ^ 8) with 256; lia).
  rewrite !ToInt32_small by (change (2 ^ 8) with 256; lia).
  rewrite lor_shifted_byte by (change (2 ^ 8) with 256; lia).
  change (2 ^ 8) with 256. lia.
Qed.

Lemma big_endian16_range (hi lo : Z) :
  is_byte hi -> is_byte lo -> 0 <= big_endian16 hi lo < 65536.
Proof. unfold is_byte, big_endian16. lia. Qed.

(** ** Rendering bytes *)

(** A property of every byte, checked byte by byte. *)
Lemma byte_cases (check : Z -> bool) :
  forallb (fun n => check (Z.of_nat n)) (seq 0 256) = true ->
  forall b, is_byte b -> check b = true.
Proof.
  intros Hall b [Hlo Hhi].
  rewrite forallb_forall in Hall.
  specialize (Hall (Z.to_nat b)). rewrite Z2Nat.id in Hall by lia.
  apply Hall. apply in_seq. lia.
Qed.

Lemma byte_toString16 (b : Z) :
  is_byte b ->
  padStart 2 "0" (toString16 b)
  = String (lower_char (hex_digit (b / 16)))
           (String (lower_char (hex_digit (b mod 16))) "").
Proof.
  intros Hb. apply String.eqb_eq.
  apply (byte_cases (fun b =>
    String.eqb (padStart 2 "0" (toString16 b))
               (String (lower_char (hex_digit (b / 16)))
                       (String (lower_char (hex_digit (b mod 16))) "")))).
  - vm_compute. reflexivity.
  - exact Hb.
Qed.

Lemma upper_lower_hex_digit (b : Z) :
  is_byte b ->
  upper_char (lower_char (hex_digit (b / 16))) = hex_digit (b / 16)
  /\ upper_char (lower_char (hex_digit (b mod 16))) = hex_digit (b mod 16).
Proof.
  intros Hb.
  pose proof (byte_cases (fun b =>
    Ascii.eqb (upper_char (lower_char (hex_digit (b / 16))))
              (hex_digit (b / 16))
    && Ascii.eqb (upper_char (lower_char (hex_digit (b mod 16))))
                 (hex_digit (b mod 16)))) as H.
  specialize (H ltac:(vm_compute; reflexivity) b Hb).
  apply andb_true_iff in H as [H1 H2].
  split; now apply Ascii.eqb_eq.
Qed.

Lemma hex_digit_is_hex (b : Z) :
  is_byte b ->
  uuidUtils.is_hex (hex_digit (b / 16)) = true
  /\ uuidUtils.is_hex (hex_digit (b mod 16)) = true.
Proof.
  intros Hb.
  pose proof (byte_cases (fun b =>
    uuidUtils.is_hex (hex_digit (b / 16))
    && uuidUtils.is_hex (hex_digit (b mod 16)))) as H.
  specialize (H ltac:(vm_compute; reflexivity) b Hb).
  now apply andb_true_iff in H.
Qed.

(** [bytesToUUID] on sixteen bytes is the canonical rendering. *)
Lemma bytesToUUID_canonical (bytes : list Z) :
  length bytes = 16%nat -> Forall is_byte bytes ->
  BleService.bytesToUUID bytes = canonical_uuid bytes.
Proof.
  intros Hlen Hbytes.
  do 16 (destruct bytes as [| ? bytes]; [discriminate Hlen |]).
  destruct bytes; [| discriminate Hlen].
  rewrite !Forall_cons in Hbytes. destruct_and!.
  unfold BleService.bytesToUUID, BleService.hex_of_bytes.
  cbn [List.map]. rewrite !byte_toString16 by assumption.
  cbn -[Z.div Z.modulo hex_digit lower_char upper_char].
  repeat match goal with
         | H : is_byte ?b |- _ =>
             destruct (upper_lower_hex_digit b H) as [-> ->]; clear H
         end.
  reflexivity.
Qed.

Lemma canonical_uuid_valid (bytes : list Z) :
  length bytes = 16%nat -> Forall is_byte bytes ->
  String.length (canonical_uuid bytes) = 36%nat
  /\ uuidUtils.isValidUUID (canonical_uuid bytes) = true.
Proof.
  intros Hlen Hbytes.
  do 16 (destruct bytes as [| ? bytes]; [discriminate Hlen |]).
  destruct bytes; [| discriminate Hlen].
  rewrite !Forall_cons in Hbytes. destruct_and!.
  split; [reflexivity |].
  unfold uuidUtils.isValidUUID.
  cbn -[Z.div Z.modulo hex_digit uuidUtils.is_hex].
  repeat match goal with
         | H : is_byte ?b |- _ =>
             destruct (hex_digit_is_hex b H) as [-> ->]; clear H;
             cbn -[Z.div Z.modulo hex_digit uuidUtils.is_hex]
         end.
  reflexivity.
Qed.

(** ** The decoder *)

Ltac js_unfold :=
  unfold try_catch, bind, ret, throw, modify, gets, console_error,
    console_log, Alert_alert, Date_now in *.

Lemma strict_neq_false (x : option Z) (k : Z) :
  strict_neq x k = false <-> x = Some k.
Proof.
  destruct x as [n |]; simpl; [| split; discriminate].
  rewrite negb_false_iff, Z.eqb_eq. split; congruence.
Qed.

Lemma header_checks (md : list Z) :
  (length md <? 25)%nat = false ->
  strict_neq (md !! 0%nat) 0x4C || strict_neq (md !! 1%nat) 0x00 = false ->
  strict_neq (md !! 2%nat) 0x02 || strict_neq (md !! 3%nat) 0x15 = false ->
  is_iBeacon_frame md.
Proof.
  intros Hlen H01 H23. apply Nat.ltb_ge in Hlen.
  apply orb_false_iff in H01 as [H0 H1], H23 as [H2 H3].
  apply strict_neq_false in H0, H1, H2, H3. now repeat split.
Qed.

(** What the decoder does with the manufacturer data of a peripheral. *)
Lemma parse_discovered (md : list Z) (signal : option Z) (w : World) :
  BleService.parseIBeaconData (discovered md signal) w =
  (Normal
     (if (length md <? 25)%nat then None
      else if strict_neq (md !! 0%nat) 0x4C || strict_neq (md !! 1%nat) 0x00
      then None
      else if strict_neq (md !! 2%nat) 0x02 || strict_neq (md !! 3%nat) 0x15
      then None
      else Some {| uuid := BleService.bytesToUUID (BleService.slice 4 20 md);
                   major := js_or (js_shl (md !! 20%nat) 8) (md !! 21%nat);
                   minor := js_or (js_shl (md !! 22%nat) 8) (md !! 23%nat);
                   beacon_rssi := match signal with
                                  | Some r => r
                                  | None => 0
                                  end |}), w).
Proof.
  unfold BleService.parseIBeaconData, discovered, BleService.property_of.
  js_unfold. cbn [advertising manufacturerData rssi].
  destruct (length md <? 25)%nat; [reflexivity |].
  destruct (strict_neq (md !! 0%nat) 76 || strict_neq (md !! 1%nat) 0);
    [reflexivity |].
  destruct (strict_neq (md !! 2%nat) 2 || strict_neq (md !! 3%nat) 21);
    reflexivity.
Qed.

(** The decoder never throws, whatever the platform hands over. *)
Lemma parse_normal (peripheral : option Peripheral) (w : World) :
  exists result w',
    BleService.parseIBeaconData peripheral w = (Normal result, w')
    /\ (w' = w \/ (peripheral = None /\ result = None
                   /\ w' = add_console "Error parsing iBeacon data:" w)).
Proof.
  destruct peripheral as [[adv signal] |].
  - destruct adv as [[[md |]] |].
    + eexists _, w. split; [apply (parse_discovered md signal w) | now left].
    + exists None, w. split; [reflexivity | now left].
    + exists None, w. split; [reflexivity | now left].
  - exists None, (add_console "Error parsing iBeacon data:" w).
    split; [reflexivity | right; repeat split].
Qed.

(** C3. A manufacturer-data sequence shorter than 25 bytes, or whose first
    two bytes are not 4C 00, or whose next two bytes are not 02 15, is
    decoded to "not recognized" ([null]) and the world is left as it was. *)
Theorem decoder_rejects_foreign_frames
        (md : list Z) (signal : option Z) (w : World) :
  (length md < 25)%nat
  \/ ~ (md !! 0%nat = Some 0x4C /\ md !! 1%nat = Some 0x00)
  \/ ~ (md !! 2%nat = Some 0x02 /\ md !! 3%nat = Some 0x15) ->
  BleService.parseIBeaconData (discovered md signal) w = (Normal None, w).
Proof.
  intros Hbad. rewrite parse_discovered.
  destruct (length md <? 25)%nat eqn:Hlen; [reflexivity |].
  destruct (strict_neq (md !! 0%nat) 0x4C || strict_neq (md !! 1%nat) 0x00)
    eqn:H01; [reflexivity |].
  destruct (strict_neq (md !! 2%nat) 0x02 || strict_neq (md !! 3%nat) 0x15)
    eqn:H23; [reflexivity |].
  exfalso.
  destruct (header_checks md Hlen H01 H23) as (Hge & H0 & H1 & H2 & H3).
  destruct Hbad as [Hshort | [Hvendor | Htype]]; [lia | tauto | tauto].
Qed.

Lemma decoder_rejects_foreign_frames_witness :
  BleService.parseIBeaconData
    (discovered [0x4C; 0x00; 0x02; 0x15; 0xE1] (Some (-60)))
    (initialised empty_storage [] 1000)
  = (Normal None, initialised empty_storage [] 1000).
Proof.
  apply (decoder_rejects_foreign_frames [0x4C; 0x00; 0x02; 0x15; 0xE1]).
  left. simpl. lia.
Defined.

Lemma frame_bytes (md : list Z) :
  is_iBeacon_frame md -> Forall is_byte md ->
  length (BleService.slice 4 20 md) = 16%nat
  /\ Forall is_byte (BleService.slice 4 20 md)
  /\ BleService.slice 4 20 md = take 16 (drop 4 md)
  /\ (forall i, (i < 25)%nat -> md !! i = Some (nth i md 0)
                                /\ is_byte (nth i md 0)).
Proof.
  intros (Hlen & _) Hbytes. unfold BleService.slice.
  change (20 - 4)%nat with 16%nat.
  split; [| split; [| split]].
  - rewrite length_take, length_drop. lia.
  - now apply Forall_take, Forall_drop.
  - reflexivity.
  - intros i Hi. split.
    + destruct (lookup_lt_is_Some_2 md i ltac:(lia)) as [x Hx].
      rewrite Hx. f_equal. symmetry. now apply nth_lookup_Some.
    + rewrite Forall_forall in Hbytes. apply Hbytes.
      apply list_elem_of_In, nth_In. lia.
Qed.

(** C4. A frame of at least 25 bytes that begins 4C 00 02 15 is decoded to
    the advertisement whose uuid is the canonical rendering of bytes 4-19
    (36 characters, upper-case hexadecimal in groups 8-4-4-4-12), whose
    major is the unsigned big-endian 16-bit integer of bytes 20-21 and
    whose minor is that of bytes 22-23; the signal strength is attached
    unchanged. *)
Theorem decoder_reads_frame (md : list Z) (signal : Z) (w : World) :
  is_iBeacon_frame md -> Forall is_byte md ->
  BleService.parseIBeaconData (discovered md (Some signal)) w =
  (Normal (Some {| uuid := canonical_uuid (take 16 (drop 4 md));
                   major := big_endian16 (nth 20 md 0) (nth 21 md 0);
                   minor := big_endian16 (nth 22 md 0) (nth 23 md 0);
                   beacon_rssi := signal |}), w)
  /\ String.length (canonical_uuid (take 16 (drop 4 md))) = 36%nat
  /\ uuidUtils.isValidUUID (canonical_uuid (take 16 (drop 4 md))) = true
  /\ 0 <= big_endian16 (nth 20 md 0) (nth 21 md 0) < 65536
  /\ 0 <= big_endian16 (nth 22 md 0) (nth 23 md 0) < 65536.
Proof.
  intros Hframe Hbytes.
  destruct (frame_bytes md Hframe Hbytes) as (Hlen16 & Hb16 & Hslice & Hnth).
  destruct Hframe as (Hlen & H0 & H1 & H2 & H3).
  destruct (Hnth 20%nat ltac:(lia)) as [E20 B20].
  destruct (Hnth 21%nat ltac:(lia)) as [E21 B21].
  destruct (Hnth 22%nat ltac:(lia)) as [E22 B22].
  destruct (Hnth 23%nat ltac:(lia)) as [E23 B23].
  rewrite <- Hslice.
  destruct (canonical_uuid_valid _ Hlen16 Hb16) as [Hlen36 Hvalid].
  repeat split; try assumption; try (apply big_endian16_range; assumption).
  rewrite parse_discovered.
  apply Nat.ltb_ge in Hlen. rewrite Hlen, H0, H1, H2, H3. cbn [strict_neq Z.eqb Pos.eqb negb orb].
  rewrite E20, E21, E22, E23.
  rewrite !big_endian_field by assumption.
  rewrite bytesToUUID_canonical by assumption.
  reflexivity.
Qed.

Lemma decoder_reads_frame_witness :
  BleService.parseIBeaconData (discovered fixture_frame (Some (-60)))
                              (initialised empty_storage [] 1000)
  = (Normal (Some {| uuid := "E101B392-ADA3-2224-2316-05EF58774925";
                     major := 0x1234;
                     minor := 0xFFFE;
                     beacon_rssi := -60 |}),
     initialised empty_storage [] 1000).
Proof.
  refine (proj1 (decoder_reads_frame fixture_frame (-60)
                   (initialised empty_storage [] 1000) _ _)).
  - unfold is_iBeacon_frame. simpl. repeat split. lia.
  - unfold fixture_frame, fixture_uuid_bytes. simpl.
    repeat (constructor; [unfold is_byte; lia |]). constructor.
Defined.

(** C9. Whatever the platform hands over (any byte sequence of any length,
    any signal strength, missing fields, even no peripheral object at all),
    the decoder completes normally with an advertisement or with "not
    recognized"; it touches neither the storage, nor the screen, nor the
    service, and a frame that is not recognized makes the discovery handler
    return without recording anything. *)
Theorem decoder_never_throws (peripheral : option Peripheral) (w : World) :
  exists result w',
    BleService.parseIBeaconData peripheral w = (Normal result, w')
    /\ storage w' = storage w /\ screen w' = screen w /\ ble w' = ble w
    /\ alerts w' = alerts w /\ faults w' = faults w
    /\ (peripheral <> None -> w' = w)
    /\ (result = None ->
        exists w'',
          BleService.handlePeripheralDiscovered peripheral w = (Normal tt, w'')
          /\ storage w'' = storage w /\ screen w'' = screen w).
Proof.
  destruct (parse_normal peripheral w) as (result & w' & Hparse & Hw').
  exists result, w'. split; [exact Hparse |].
  assert (storage w' = storage w /\ screen w' = screen w /\ ble w' = ble w
          /\ alerts w' = alerts w /\ faults w' = faults w) as Hsame.
  { destruct Hw' as [-> | (_ & _ & ->)]; repeat split. }
  destruct Hsame as (Hst & Hsc & Hble & Hal & Hfl).
  repeat (split; [assumption |]). split.
  - intros Hsome. destruct Hw' as [-> | (Hnone & _)]; congruence.
  - intros ->. unfold BleService.handlePeripheralDiscovered. js_unfold.
    destruct (ble_settings (ble w)), (onBeaconFound (ble w));
      try (exists w; now repeat split).
    rewrite Hparse. exists w'. now repeat split.
Qed.

(** ** The filter in the discovery handler *)

Lemma handler_filters (peripheral : option Peripheral) (w : World)
      (settings : Settings) (callback : Callback) (beaconData : BeaconData) :
  ble_settings (ble w) = Some settings ->
  onBeaconFound (ble w) = Some callback ->
  BleService.parseIBeaconData peripheral w = (Normal (Some beaconData), w) ->
  BleService.handlePeripheralDiscovered peripheral w =
  if BleService.accept beaconData settings
  then try_catch (BleService.record beaconData) on_discovery_error w
  else (Normal tt, w).
Proof.
  intros Hs Hc Hparse.
  unfold BleService.handlePeripheralDiscovered, BleService.accept,
    on_discovery_error.
  unfold try_catch at 1. unfold bind at 1. unfold gets at 1.
  rewrite Hs, Hc. unfold try_catch at 1. unfold bind at 1. rewrite Hparse.
  destruct (BleService.uuid_differs beaconData settings); [reflexivity |].
  destruct (BleService.rssi_below beaconData settings); reflexivity.
Qed.

(** C1. A decoded advertisement goes on to be recorded if and only if its
    UUID equals the target UUID up to the case of letters and its signal
    strength is at least the threshold; a signal strength equal to the
    threshold is accepted, one below it by 1 is rejected. *)
Theorem filter_accepts_iff_criteria_met
        (peripheral : option Peripheral) (w : World)
        (settings : Settings) (callback : Callback) (beaconData : BeaconData) :
  ble_settings (ble w) = Some settings ->
  onBeaconFound (ble w) = Some callback ->
  BleService.parseIBeaconData peripheral w = (Normal (Some beaconData), w) ->
  (BleService.accept beaconData settings = true
   <-> meets_criteria beaconData settings)
  /\ (meets_criteria beaconData settings ->
      BleService.handlePeripheralDiscovered peripheral w
      = try_catch (BleService.record beaconData) on_discovery_error w)
  /\ (~ meets_criteria beaconData settings ->
      BleService.handlePeripheralDiscovered peripheral w = (Normal tt, w))
  /\ (eq_ignore_case (uuid beaconData) (targetUuid settings) ->
      BleService.accept
        {| uuid := uuid beaconData; major := major beaconData;
           minor := minor beaconData;
           beacon_rssi := rssiThreshold settings |} settings = true
      /\ BleService.accept
           {| uuid := uuid beaconData; major := major beaconData;
              minor := minor beaconData;
              beacon_rssi := rssiThreshold settings - 1 |} settings = false).
Proof.
  intros Hs Hc Hparse.
  pose proof (handler_filters peripheral w settings callback beaconData
                              Hs Hc Hparse) as Hhandler.
  split; [apply accept_meets_criteria |]. split; [| split].
  - intros Hmeets. apply accept_meets_criteria in Hmeets.
    now rewrite Hhandler, Hmeets.
  - intros Hnot. rewrite Hhandler.
    destruct (BleService.accept beaconData settings) eqn:E; [| reflexivity].
    apply accept_meets_criteria in E. contradiction.
  - intros Huuid. split.
    + apply accept_meets_criteria. split; simpl; [exact Huuid | lia].
    + apply not_true_is_false. intros E.
      apply accept_meets_criteria in E as [_ E]. simpl in E. lia.
Qed.

Lemma filter_accepts_iff_criteria_met_witness :
  BleService.accept
    {| uuid := "E101B392-ADA3-2224-2316-05EF58774925"; major := 0x1234;
       minor := 0xFFFE; beacon_rssi := -60 |}
    {| targetUuid := "e101b392-ada3-2224-2316-05ef58774925";
       rssiThreshold := -70 |} = true
  <-> meets_criteria
        {| uuid := "E101B392-ADA3-2224-2316-05EF58774925"; major := 0x1234;
           minor := 0xFFFE; beacon_rssi := -60 |}
        {| targetUuid := "e101b392-ada3-2224-2316-05ef58774925";
           rssiThreshold := -70 |}.
Proof.
  refine (proj1 (filter_accepts_iff_criteria_met
                   (discovered fixture_frame (Some (-60)))
                   (set_ble (BleService.put_settings
                               (SETTINGS configured_storage))
                            (initialised configured_storage [] 1000))
                   _ PrependBeaconRead _ _ _ _)).
  - reflexivity.
  - reflexivity.
  - vm_compute. reflexivity.
Defined.

(** ** Default settings *)

(** C2. With nothing stored, [getSettings] returns the threshold -70 and,
    as target UUID, the 32 hexadecimal digits without hyphens: that string
    is not the canonical "E101B392-ADA3-2224-2316-05EF58774925", fails the
    repository's own [isValidUUID], and never matches the UUID of a decoded
    advertisement.  The canonical string is what [formatUUID], applied to
    every value typed into the settings screen, makes of it. *)
Theorem default_target_uuid_has_no_hyphens (w : World) :
  SETTINGS (storage w) = None ->
  fst (StorageService.getSettings w)
  = Normal {| targetUuid := "E101B392ADA32224231605EF58774925";
              rssiThreshold := -70 |}
  /\ targetUuid StorageService.defaultSettings <> canonical_default_uuid
  /\ uuidUtils.isValidUUID (targetUuid StorageService.defaultSettings) = false
  /\ uuidUtils.isValidUUID canonical_default_uuid = true
  /\ uuidUtils.formatUUID (targetUuid StorageService.defaultSettings)
     = canonical_default_uuid
  /\ (forall major minor signal,
         BleService.accept
           {| uuid := canonical_default_uuid; major := major; minor := minor;
              beacon_rssi := signal |}
           StorageService.defaultSettings = false).
Proof.
  intros Hnone. split; [| repeat split; try discriminate].
  - unfold StorageService.getSettings, StorageService.getItem, native.
    js_unfold. destruct (faults w) as [| [|] rest]; simpl;
      rewrite ?Hnone; reflexivity.
Qed.

Lemma default_target_uuid_has_no_hyphens_witness :
  fst (StorageService.getSettings (initialised empty_storage [] 1000))
  = Normal {| targetUuid := "E101B392ADA32224231605EF58774925";
              rssiThreshold := -70 |}.
Proof.
  refine (proj1 (default_target_uuid_has_no_hyphens
                   (initialised empty_storage [] 1000) _)).
  reflexivity.
Defined.

(** ** Trimming *)

Lemma trimStart_blank (s : string) : is_blank s -> trimStart s = "".
Proof.
  unfold is_blank. induction s as [| c s IH]; intros H; [reflexivity |].
  simpl in *. rewrite (H c) by now left. apply IH. intros d Hd. apply H.
  now right.
Qed.

Lemma trimStart_head (s : string) (c : ascii) (rest : string) :
  trimStart s = String c rest -> is_space c = false.
Proof.
  induction s as [| d s IH]; simpl; [discriminate |].
  destruct (is_space d) eqn:E; [exact IH |].
  intros H. injection H as -> _. exact E.
Qed.

Lemma trimEnd_empty (c : ascii) (s : string) :
  trimEnd (String c s) = "" -> is_space c = true.
Proof.
  simpl. destruct (trimEnd s); [| discriminate].
  destruct (is_space c); [reflexivity | discriminate].
Qed.

Lemma trim_blank (s : string) : is_blank s -> trim s = "".
Proof. intros H. unfold trim. now rewrite trimStart_blank. Qed.

Lemma trim_empty_blank (s : string) : trim s = "" -> is_blank s.
Proof.
  unfold trim. intros H.
  assert (trimStart s = "") as Hstart.
  { destruct (trimStart s) as [| c rest] eqn:E; [reflexivity |].
    apply trimEnd_empty in H. apply trimStart_head in E. congruence. }
  clear H. unfold is_blank.
  induction s as [| d s IH]; simpl; [tauto |].
  simpl in Hstart. destruct (is_space d) eqn:E; [| discriminate].
  intros c [<- | Hc]; [exact E | now apply IH].
Qed.

(** ** Persistence when no native call fails *)

Lemma native_ok (what : string) (w : World) :
  faults w = [] -> native what w = (Normal tt, w).
Proof. intros H. unfold native. now rewrite H. Qed.

Lemma getCurrentSession_ok (w : World) :
  faults w = [] ->
  StorageService.getCurrentSession w
  = (Normal (CURRENT_SESSION (storage w)), w).
Proof.
  intros H. unfold StorageService.getCurrentSession, StorageService.getItem.
  js_unfold. now rewrite native_ok.
Qed.

Lemma saveCurrentSession_ok (session : option Session) (w : World) :
  faults w = [] ->
  StorageService.saveCurrentSession session w
  = (Normal tt,
     set_storage (StorageService.put_CURRENT_SESSION session) w).
Proof.
  intros H. unfold StorageService.saveCurrentSession,
    StorageService.setItem, StorageService.removeItem.
  js_unfold. destruct session; now rewrite native_ok.
Qed.

Lemma addBeaconRead_ok (beaconRead : BeaconRead) (s : Session) (w : World) :
  faults w = [] -> CURRENT_SESSION (storage w) = Some s ->
  StorageService.addBeaconReadToCurrentSession beaconRead w
  = (Normal tt,
     set_storage (StorageService.put_CURRENT_SESSION
                    (Some (StorageService.push_read s beaconRead))) w).
Proof.
  intros Hf Hs. unfold StorageService.addBeaconReadToCurrentSession.
  unfold try_catch at 1. unfold bind at 1.
  rewrite getCurrentSession_ok, Hs by assumption.
  now rewrite saveCurrentSession_ok.
Qed.

(** ** Recording without a session *)

(** C10. When no current session is stored, adding a beacon read completes
    without error, creates no session and leaves the persisted state (and
    the screen) exactly as it was; the read is dropped. *)
Theorem record_without_session_drops_read
        (beaconRead : BeaconRead) (w : World) :
  CURRENT_SESSION (storage w) = None ->
  exists w',
    StorageService.addBeaconReadToCurrentSession beaconRead w
    = (Normal tt, w')
    /\ storage w' = storage w
    /\ CURRENT_SESSION (storage w') = None
    /\ screen w' = screen w
    /\ alerts w' = alerts w.
Proof.
  intros Hnone.
  unfold StorageService.addBeaconReadToCurrentSession,
    StorageService.getCurrentSession, StorageService.getItem, native.
  js_unfold.
  destruct (faults w) as [| [|] rest]; simpl; rewrite ?Hnone;
    eexists; (split; [reflexivity |]); simpl; now rewrite ?Hnone.
Qed.

Lemma record_without_session_drops_read_witness :
  exists w',
    StorageService.addBeaconReadToCurrentSession
      {| read_id := "1005_k3j9x0q2a";
         read_uuid := "E101B392-ADA3-2224-2316-05EF58774925";
         read_major := 0x1234; read_minor := 0xFFFE; read_rssi := -60;
         read_timestamp := 1005 |}
      (initialised configured_storage [] 1005)
    = (Normal tt, w')
    /\ storage w' = configured_storage
    /\ CURRENT_SESSION (storage w') = None
    /\ screen w' = screen (initialised configured_storage [] 1005)
    /\ alerts w' = [].
Proof.
  apply (record_without_session_drops_read _
           (initialised configured_storage [] 1005)).
  reflexivity.
Defined.

(** ** Saving *)

(** C7. Saving while no session is active, or with an empty or blank name,
    writes nothing: storage and screen state are unchanged, and the failure
    is reported to the operator in an "Error" alert. *)
Theorem save_precondition_failure (w : World) :
  is_blank (sessionName (screen w)) \/ currentSession (screen w) = None ->
  exists message w',
    ScanningScreen.saveSession w = (Normal tt, w')
    /\ storage w' = storage w
    /\ screen w' = screen w
    /\ ble w' = ble w
    /\ alerts w' = (alerts w ++ [("Error", message)])%list
    /\ (message = "Please enter a session name"
        \/ message = "No active session to save").
Proof.
  intros Hpre. unfold ScanningScreen.saveSession. js_unfold.
  destruct (String.eqb_spec (trim (sessionName (screen w))) "") as [E | NE].
  - exists "Please enter a session name", (add_alert
      ("Error", "Please enter a session name") w).
    repeat split. now left.
  - destruct Hpre as [Hblank | Hidle].
    + apply trim_blank in Hblank. contradiction.
    + rewrite Hidle.
      exists "No active session to save", (add_alert
        ("Error", "No active session to save") w).
      repeat split. now right.
Qed.

Lemma save_precondition_failure_witness :
  exists message w',
    ScanningScreen.saveSession (initialised configured_storage [] 1000)
    = (Normal tt, w')
    /\ storage w' = configured_storage
    /\ screen w' = screen (initialised configured_storage [] 1000)
    /\ ble w' = ble (initialised configured_storage [] 1000)
    /\ alerts w' = [("Error", message)]
    /\ (message = "Please enter a session name"
        \/ message = "No active session to save").
Proof.
  apply (save_precondition_failure (initialised configured_storage [] 1000)).
  right. reflexivity.
Defined.

(** ** Persistence failures and the in-memory state *)

(** Name every field of a world, so that the functions compute on it. *)
Ltac open_world w :=
  destruct w as [stored oracle clock suffixes format
                 [scanning loaded callback registered]
                 [shown_scanning current shown bluetooth modal typed]
                 shown_alerts logged];
  simpl in *.

(** C6. When the write of the new current session fails, [startScanning]
    has already put the new session into the screen state: the screen shows
    an active session that the storage does not hold.  ([saveSession] and
    the clear handler update the screen only after their writes, see
    [save_advances_after_persisting] and [clear_failure_keeps_state].) *)
Theorem start_sets_state_before_persisting (w : World) (rest : list bool) :
  bluetoothState (screen w) = "on" ->
  currentSession (screen w) = None ->
  faults w = true :: rest ->
  exists w',
    ScanningScreen.startScanning w = (Normal tt, w')
    /\ currentSession (screen w') = Some (opened_session w)
    /\ storage w' = storage w
    /\ isScanning (screen w') = isScanning (screen w)
    /\ alerts w' = (alerts w ++ [("Error", "Failed to start scanning")])%list.
Proof.
  intros Hbt Hidle Hfault. open_world w. subst.
  eexists. split; [reflexivity |]. now repeat split.
Qed.

Lemma start_sets_state_before_persisting_witness :
  exists w',
    ScanningScreen.startScanning (initialised empty_storage [true] 1000)
    = (Normal tt, w')
    /\ currentSession (screen w')
       = Some (opened_session (initialised empty_storage [true] 1000))
    /\ storage w' = empty_storage
    /\ isScanning (screen w') = false
    /\ alerts w' = [("Error", "Failed to start scanning")].
Proof.
  apply (start_sets_state_before_persisting
           (initialised empty_storage [true] 1000) []); reflexivity.
Defined.

(** The clear handler leaves the screen alone when its write fails. *)
Lemma clear_failure_keeps_state (w : World) (rest : list bool) :
  faults w = true :: rest ->
  exists w',
    ScanningScreen.clearCurrentSession_onPress w = (Normal tt, w')
    /\ screen w' = screen w /\ storage w' = storage w.
Proof.
  intros Hfault. open_world w. subst. eexists. now repeat split.
Qed.

(** [saveSession] changes the screen only when the current-session marker
    has been removed from the storage. *)
Lemma save_advances_after_persisting (w : World) :
  screen (snd (ScanningScreen.saveSession w)) = screen w
  \/ (CURRENT_SESSION (storage (snd (ScanningScreen.saveSession w))) = None
      /\ exists saved,
           SESSIONS (storage (snd (ScanningScreen.saveSession w)))
           = Some saved).
Proof.
  open_world w. unfold ScanningScreen.saveSession. js_unfold. simpl.
  match goal with
  | |- context [String.eqb (trim ?n) ""] =>
      destruct (String.eqb (trim n) ""); [now left |]
  end.
  destruct current; [| now left].
  destruct oracle as [| [|] [| [|] [| [|] rest]]]; simpl;
    try (now left); right; split; try reflexivity; eexists; reflexivity.
Qed.

(** When storing the read fails, the callback is not invoked: the screen
    shows no read that the storage does not hold. *)
Lemma record_failure_not_shown (beaconData : BeaconData) (w : World) :
  forall error w',
    BleService.record beaconData w = (Throw error, w') ->
    screen w' = screen w.
Proof.
  intros error w'. open_world w.
  unfold BleService.record, BleService.createBeaconRead, random_suffix.
  js_unfold. simpl.
  destruct suffixes as [| suffix more]; simpl;
    destruct oracle as [| [|] [| [|] rest]]; simpl;
    destruct stored as [? ? [cur |]]; simpl;
    destruct callback as [[] |]; simpl;
    intros H; first [discriminate H | injection H as _ <-; reflexivity].
Qed.

(** ** Record calls on the event loop *)

(** Resuming a call twice is the whole of
    [addBeaconReadToCurrentSession]. *)
Lemma resume_twice (beaconRead : BeaconRead) (w : World) :
  let (call, w1) := resume (AwaitGetCurrentSession beaconRead) w in
  let (call', w2) := resume call w1 in
  exists result,
    call' = Settled result
    /\ StorageService.addBeaconReadToCurrentSession beaconRead w
       = (result, w2).
Proof.
  open_world w.
  destruct oracle as [| [|] [| [|] rest]]; destruct stored as [? ? [cur |]];
    simpl; eexists; split; reflexivity.
Qed.

Lemma resume_get_ok (beaconRead : BeaconRead) (w : World) :
  faults w = [] ->
  resume (AwaitGetCurrentSession beaconRead) w
  = (AwaitSaveCurrentSession beaconRead (CURRENT_SESSION (storage w)), w).
Proof. intros H. unfold resume. now rewrite getCurrentSession_ok. Qed.

Lemma resume_save_ok (beaconRead : BeaconRead) (s : Session) (w : World) :
  faults w = [] ->
  resume (AwaitSaveCurrentSession beaconRead (Some s)) w
  = (Settled (Normal tt),
     set_storage (StorageService.put_CURRENT_SESSION
                    (Some (StorageService.push_read s beaconRead))) w).
Proof.
  intros H. unfold resume, try_catch. now rewrite saveCurrentSession_ok.
Qed.

Lemma one_at_a_time_from (done : list AddCall) (reads : list BeaconRead)
      (s : Session) (w : World) :
  CURRENT_SESSION (storage w) = Some s -> faults w = [] ->
  exists w',
    schedule (one_at_a_time (length done) (length reads))
             (done ++ List.map AwaitGetCurrentSession reads) w
    = ((done ++ List.map (fun _ => Settled (Normal tt)) reads)%list, w')
    /\ stored_reads w' = Some (beaconReads s ++ reads)%list
    /\ in_sequence reads w = (Normal tt, w').
Proof.
  revert done s w.
  induction reads as [| r reads IH]; intros done s w Hs Hf.
  - exists w. simpl. unfold stored_reads. rewrite Hs, !app_nil_r.
    now repeat split.
  - set (w1 := set_storage (StorageService.put_CURRENT_SESSION
                              (Some (StorageService.push_read s r))) w).
    destruct (IH (done ++ [Settled (Normal tt)])%list
                 (StorageService.push_read s r) w1)
      as (w' & Hrun & Hreads & Hseq); [reflexivity | exact Hf |].
    exists w'. split; [| split].
    + cbn [length one_at_a_time List.map schedule].
      rewrite list_lookup_middle by reflexivity.
      rewrite resume_get_ok, Hs by exact Hf.
      rewrite insert_app_r_alt, Nat.sub_diag by lia. cbn [list_insert insert].
      rewrite list_lookup_middle by reflexivity.
      rewrite resume_save_ok by exact Hf.
      rewrite insert_app_r_alt, Nat.sub_diag by lia. cbn [list_insert insert].
      fold w1.
      rewrite length_app, Nat.add_1_r, <- !app_assoc in Hrun.
      exact Hrun.
    + rewrite Hreads. simpl. now rewrite <- app_assoc.
    + cbn [in_sequence]. unfold bind at 1.
      rewrite (addBeaconRead_ok r s w Hf Hs). exact Hseq.
Qed.

(** C8, as the code has it.  Record calls that do not overlap (each one is
    awaited before the next starts) and meet no storage failure append all
    their reads to the stored current session, in arrival order. *)
Theorem records_one_at_a_time_keep_order
        (reads : list BeaconRead) (s : Session) (w : World) :
  CURRENT_SESSION (storage w) = Some s -> faults w = [] ->
  exists w',
    schedule (one_at_a_time 0 (length reads))
             (List.map AwaitGetCurrentSession reads) w
    = (List.map (fun _ => Settled (Normal tt)) reads, w')
    /\ stored_reads w' = Some (beaconReads s ++ reads)%list
    /\ in_sequence reads w = (Normal tt, w').
Proof.
  intros Hs Hf. exact (one_at_a_time_from [] reads s w Hs Hf).
Qed.

Lemma records_one_at_a_time_keep_order_witness :
  exists w',
    schedule [0; 0; 1; 1]%nat
             [AwaitGetCurrentSession read_a; AwaitGetCurrentSession read_b]
             (initialised recording_storage [] 1005)
    = ([Settled (Normal tt); Settled (Normal tt)], w')
    /\ stored_reads w' = Some [read_a; read_b]
    /\ in_sequence [read_a; read_b] (initialised recording_storage [] 1005)
       = (Normal tt, w').
Proof.
  apply (records_one_at_a_time_keep_order [read_a; read_b]
           session_in_progress
           (initialised recording_storage [] 1005)); reflexivity.
Defined.

(** C8, as stated, fails: two record calls that overlap (both have read the
    stored session before either writes it back) both complete normally,
    and the stored session holds one read, not two. *)
Lemma overlapping_records_lose_a_read :
  let outcome :=
    schedule [0; 1; 0; 1]%nat
             [AwaitGetCurrentSession read_a; AwaitGetCurrentSession read_b]
             (initialised recording_storage [] 1005) in
  all_settled (fst outcome) = true
  /\ stored_reads (snd outcome) = Some [read_b]
  /\ stored_reads (snd outcome) <> Some [read_a; read_b]
  /\ (length <$> stored_reads (snd outcome)) = Some 1%nat.
Proof. vm_compute. repeat split. discriminate. Qed.

(** ** Start, record, save *)

Lemma run_app (events more : list Event) (w : World) :
  run (events ++ more) w = run more (run events w).
Proof.
  revert w. induction events as [| e events IH]; intros w; [reflexivity |].
  simpl. apply IH.
Qed.

Lemma start_opens_session (w : World) :
  ready_to_start w ->
  recording_into (opened_session w) (settings_in_effect w)
                 (SESSIONS (storage w)) 0 (snd (fire PressStart w)).
Proof.
  intros (Hbt & Hidle & Hf & Hscan & Hcb & Hls).
  open_world w. subst. unfold recording_into.
  destruct stored as [[configured |] saved current]; simpl;
    repeat split; exists []; now split.
Qed.

Lemma tick_keeps_recording (opened : Session) (settings : Settings)
      (saved : option (list Session)) (n : nat) (t : Z) (w : World) :
  recording_into opened settings saved n w ->
  recording_into opened settings saved n (snd (fire (Tick t) w)).
Proof. intros H. exact H. Qed.

Lemma record_ok (beaconData : BeaconData) (s : Session) (w : World) :
  faults w = [] -> CURRENT_SESSION (storage w) = Some s ->
  onBeaconFound (ble w) = Some PrependBeaconRead ->
  exists beaconRead w',
    BleService.record beaconData w = (Normal tt, w')
    /\ storage w' = StorageService.put_CURRENT_SESSION
                      (Some (StorageService.push_read s beaconRead))
                      (storage w)
    /\ faults w' = [] /\ ble w' = ble w
    /\ currentSession (screen w') = currentSession (screen w)
    /\ read_uuid beaconRead = uuid beaconData
    /\ read_timestamp beaconRead = now w.
Proof.
  intros Hf Hs Hcb. open_world w.
  destruct stored as [configured saved current_stored]. simpl in Hs. subst.
  destruct suffixes as [| suffix more]; simpl;
    eexists; eexists; (split; [reflexivity |]); now repeat split.
Qed.

Lemma discover_accepted (opened : Session) (settings : Settings)
      (saved : option (list Session)) (n : nat)
      (peripheral : option Peripheral) (w : World) :
  recording_into opened settings saved n w ->
  accepted_under settings peripheral ->
  recording_into opened settings saved (S n)
                 (snd (fire (Discover peripheral) w)).
Proof.
  intros (Hf & Hset & Hcb & Hls & Hcur & Hsaved & reads & Hstored & Hlen)
         (beaconData & Hparse & Haccept).
  unfold fire. unfold bind at 1. unfold gets at 1. rewrite Hls.
  cbn [emit]. unfold bind at 1.
  rewrite (handler_filters peripheral w settings PrependBeaconRead beaconData
             Hset Hcb (Hparse w)), Haccept.
  destruct (record_ok beaconData _ w Hf Hstored Hcb)
    as (beaconRead & w' & Hrec & Hst & Hf' & Hble & Hscreen & _).
  unfold try_catch. rewrite Hrec. cbn [ret snd].
  unfold recording_into. rewrite Hst, Hf', Hble, Hscreen.
  cbn [StorageService.put_CURRENT_SESSION SESSIONS CURRENT_SESSION].
  repeat (split; [first [assumption | reflexivity] |]).
  exists (reads ++ [beaconRead])%list. split; [reflexivity |].
  rewrite length_app. simpl. lia.
Qed.

Lemma recordings_accepted (opened : Session) (settings : Settings)
      (saved : option (list Session))
      (arrivals : list (Z * option Peripheral)) (n : nat) (w : World) :
  recording_into opened settings saved n w ->
  Forall (fun arrival => accepted_under settings (snd arrival)) arrivals ->
  recording_into opened settings saved (n + length arrivals)
                 (run (recordings arrivals) w).
Proof.
  revert n w.
  induction arrivals as [| [t peripheral] arrivals IH]; intros n w Hrec Hall.
  - simpl. now rewrite Nat.add_0_r.
  - apply Forall_cons in Hall as [Hone Hall].
    cbn [recordings run length]. rewrite Nat.add_succ_r.
    apply (IH (S n)); [| exact Hall].
    apply discover_accepted; [| exact Hone].
    now apply tick_keeps_recording.
Qed.

Lemma save_after_recording (opened : Session) (settings : Settings)
      (saved : option (list Session)) (n : nat) (finalName : string)
      (t : Z) (w : World) :
  recording_into opened settings saved n w ->
  saved = None \/ saved = Some [] ->
  trim finalName <> "" ->
  let after := run [TypeName finalName; Tick t; PressSave] w in
  SESSIONS (storage after)
  = Some [ {| session_id := session_id opened;
              session_name := trim finalName;
              startTime := startTime opened;
              endTime := Some t;
              beaconReads := beaconReads opened |} ]
  /\ CURRENT_SESSION (storage after) = None
  /\ currentSession (screen after) = None.
Proof.
  intros (Hf & _ & _ & _ & Hcur & Hsaved & _) Hnone Hname.
  open_world w. destruct stored as [configured stored_sessions marker].
  simpl in *. subst.
  unfold ScanningScreen.saveSession. js_unfold. simpl.
  destruct (String.eqb_spec (trim finalName) "") as [E | _];
    [contradiction |].
  destruct Hnone as [-> | ->]; simpl; now repeat split.
Qed.

(** C5, as the code has it.  After start, N accepted advertisements and
    save under a non-blank name, the saved-sessions collection holds exactly
    one session, with the trimmed name, the start time, an end time not
    before it, and no current-session marker remains; the N reads were
    stored under the current session, but the saved session has the reads
    of the screen's copy of the session, which is empty. *)
Theorem saved_session_has_no_reads
        (w : World) (arrivals : list (Z * option Peripheral))
        (finalName : string) (tsave : Z) :
  ready_to_start w ->
  SESSIONS (storage w) = None \/ SESSIONS (storage w) = Some [] ->
  Forall (fun arrival => accepted_under (settings_in_effect w) (snd arrival))
         arrivals ->
  trim finalName <> "" ->
  now w <= tsave ->
  let before := run (PressStart :: recordings arrivals) w in
  let after := run [TypeName finalName; Tick tsave; PressSave] before in
  (exists reads, stored_reads before = Some reads
                 /\ length reads = length arrivals)
  /\ exists saved,
      SESSIONS (storage after) = Some [saved]
      /\ session_name saved = trim finalName
      /\ startTime saved = now w
      /\ endTime saved = Some tsave
      /\ startTime saved <= tsave
      /\ beaconReads saved = []
      /\ CURRENT_SESSION (storage after) = None
      /\ currentSession (screen after) = None.
Proof.
  intros Hready Hsaved Hall Hname Htime before after.
  assert (recording_into (opened_session w) (settings_in_effect w)
                         (SESSIONS (storage w)) (length arrivals) before)
    as Hrec.
  { subst before. cbn [run].
    apply (recordings_accepted _ _ _ arrivals 0); [| exact Hall].
    now apply start_opens_session. }
  split.
  - destruct Hrec as (_ & _ & _ & _ & _ & _ & reads & Hstored & Hlen).
    exists reads. unfold stored_reads. now rewrite Hstored.
  - destruct (save_after_recording _ _ _ _ finalName tsave before
                Hrec Hsaved Hname) as (Hsessions & Hcurrent & Hscreen).
    eexists. split; [exact Hsessions |]. now repeat split.
Qed.

Lemma saved_session_has_no_reads_witness :
  let w := initialised configured_storage [] 1000 in
  let before :=
    run (PressStart
           :: recordings [(1005, discovered fixture_frame (Some (-60)))]) w in
  let after := run [TypeName "x"; Tick 1020; PressSave] before in
  (exists reads, stored_reads before = Some reads
                 /\ length reads = 1%nat)
  /\ exists saved,
      SESSIONS (storage after) = Some [saved]
      /\ session_name saved = "x"
      /\ startTime saved = 1000
      /\ endTime saved = Some 1020
      /\ startTime saved <= 1020
      /\ beaconReads saved = []
      /\ CURRENT_SESSION (storage after) = None
      /\ currentSession (screen after) = None.
Proof.
  apply (saved_session_has_no_reads
           (initialised configured_storage [] 1000)
           [(1005, discovered fixture_frame (Some (-60)))] "x" 1020).
  - unfold ready_to_start. simpl. repeat split.
  - left. reflexivity.
  - constructor; [| constructor].
    cbv beta. cbn [snd]. eexists. split.
    + intros w. rewrite parse_discovered. reflexivity.
    + vm_compute. reflexivity.
  - vm_compute. discriminate.
  - simpl. lia.
Defined.

(** * Further properties of the code *)

(** ** The saved-sessions collection *)

Lemma findIndex_lookup (id : string) (sessions : list Session) (i : nat) :
  StorageService.findIndex id sessions = Some i ->
  exists found,
    sessions !! i = Some found /\ session_id found = id
    /\ session_with_id id sessions = Some found.
Proof.
  unfold session_with_id. revert i.
  induction sessions as [| s rest IH]; intros i; simpl; [discriminate |].
  destruct (String.eqb_spec (session_id s) id) as [E | NE].
  - intros H. injection H as <-. now exists s.
  - destruct (StorageService.findIndex id rest) as [j |]; [| discriminate].
    intros H. injection H as <-. destruct (IH j eq_refl) as (found & ? & ? & ?).
    now exists found.
Qed.

Lemma findIndex_absent (id : string) (sessions : list Session) :
  StorageService.findIndex id sessions = None ->
  session_with_id id sessions = None
  /\ ~ In id (List.map session_id sessions).
Proof.
  unfold session_with_id.
  induction sessions as [| s rest IH]; simpl; [intros _; split; tauto |].
  destruct (String.eqb_spec (session_id s) id) as [E | NE]; [discriminate |].
  destruct (StorageService.findIndex id rest); [discriminate |].
  intros _. destruct (IH eq_refl) as [Hfind Hnot]. split; [exact Hfind |].
  intros [E | Hin]; contradiction.
Qed.

Lemma session_with_id_replaced (s : Session) (sessions : list Session)
      (i : nat) :
  StorageService.findIndex (session_id s) sessions = Some i ->
  session_with_id (session_id s) (<[i := s]> sessions) = Some s
  /\ (forall id, id <> session_id s ->
        session_with_id id (<[i := s]> sessions)
        = session_with_id id sessions)
  /\ List.map session_id (<[i := s]> sessions) = List.map session_id sessions.
Proof.
  unfold session_with_id. revert i.
  induction sessions as [| t rest IH]; intros i; simpl; [discriminate |].
  destruct (String.eqb_spec (session_id t) (session_id s)) as [E | NE].
  - intros H. injection H as <-. simpl. rewrite String.eqb_refl.
    split; [reflexivity |]. split.
    + intros id Hid. rewrite <- E.
      destruct (String.eqb_spec (session_id s) id) as [E1 | _];
        [congruence |].
      destruct (String.eqb_spec (session_id t) id) as [E2 | _];
        [congruence | reflexivity].
    + now rewrite E.
  - destruct (StorageService.findIndex (session_id s) rest) as [j |];
      [| discriminate].
    intros H. injection H as <-. simpl.
    destruct (IH j eq_refl) as (Hfound & Hother & Hids).
    destruct (String.eqb_spec (session_id t) (session_id s)) as [E | _];
      [contradiction |].
    split; [exact Hfound |]. split.
    + intros id Hid. destruct (String.eqb (session_id t) id);
        [reflexivity | now apply Hother].
    + now rewrite Hids.
Qed.

Lemma session_with_id_appended (s : Session) (sessions : list Session) :
  StorageService.findIndex (session_id s) sessions = None ->
  session_with_id (session_id s) (sessions ++ [s]) = Some s
  /\ (forall id, id <> session_id s ->
        session_with_id id (sessions ++ [s]) = session_with_id id sessions).
Proof.
  intros Habsent. apply findIndex_absent in Habsent as [Hnone _].
  unfold session_with_id in *. split.
  - induction sessions as [| t rest IH]; simpl in *.
    + now rewrite String.eqb_refl.
    + destruct (String.eqb (session_id t) (session_id s));
        [discriminate | now apply IH].
  - intros id Hid. clear Hnone.
    induction sessions as [| t rest IH]; simpl.
    + destruct (String.eqb_spec (session_id s) id); congruence.
    + destruct (String.eqb (session_id t) id); [reflexivity | exact IH].
Qed.

Lemma saved_sessions_written (sessions : list Session) (w : World) :
  saved_sessions
    (set_storage (StorageService.put_SESSIONS (Some sessions)) w)
  = sessions.
Proof. reflexivity. Qed.

(** What [saveSession] stores when no native call fails. *)
Lemma saveSession_ok (s : Session) (w : World) :
  faults w = [] ->
  StorageService.saveSession s w =
  (Normal tt,
   set_storage
     (StorageService.put_SESSIONS
        (Some match StorageService.findIndex (session_id s)
                                             (saved_sessions w) with
              | Some i => <[i := s]> (saved_sessions w)
              | None => (saved_sessions w ++ [s])%list
              end)) w).
Proof.
  intros Hf. open_world w. subst.
  destruct stored as [configured [sessions |] marker]; reflexivity.
Qed.

(** X1. Saving a session and looking it up: when no storage call fails,
    after [saveSession s] the collection holds [s] under its id, every
    session of another id is found as before, and the collection has grown
    by one exactly when the id was new. *)
Theorem saveSession_upserts_by_id (s : Session) (w : World) :
  faults w = [] ->
  exists w',
    StorageService.saveSession s w = (Normal tt, w')
    /\ session_with_id (session_id s) (saved_sessions w') = Some s
    /\ (forall id, id <> session_id s ->
          session_with_id id (saved_sessions w')
          = session_with_id id (saved_sessions w))
    /\ length (saved_sessions w')
       = match session_with_id (session_id s) (saved_sessions w) with
         | Some _ => length (saved_sessions w)
         | None => S (length (saved_sessions w))
         end
    /\ CURRENT_SESSION (storage w') = CURRENT_SESSION (storage w)
    /\ SETTINGS (storage w') = SETTINGS (storage w).
Proof.
  intros Hf. eexists. split; [now apply saveSession_ok |].
  rewrite !saved_sessions_written.
  cbn [storage set_storage StorageService.put_SESSIONS CURRENT_SESSION
       SETTINGS].
  destruct (StorageService.findIndex (session_id s) (saved_sessions w))
    as [i |] eqn:Hindex.
  - destruct (session_with_id_replaced s _ i Hindex) as (Hfound & Hother & _).
    destruct (findIndex_lookup _ _ _ Hindex) as (old & _ & _ & Hold).
    rewrite Hold, length_insert. now repeat split.
  - destruct (session_with_id_appended s _ Hindex) as (Hfound & Hother).
    destruct (findIndex_absent _ _ Hindex) as (Hnone & _).
    rewrite Hnone, length_app. simpl. repeat split; try assumption. lia.
Qed.

Lemma saveSession_upserts_by_id_witness :
  exists w',
    StorageService.saveSession session_in_progress
                               (initialised configured_storage [] 1000)
    = (Normal tt, w')
    /\ session_with_id "session_1000" (saved_sessions w')
       = Some session_in_progress.
Proof.
  destruct (saveSession_upserts_by_id session_in_progress
              (initialised configured_storage [] 1000) eq_refl)
    as (w' & Hsave & Hfound & _).
  exists w'. split; [exact Hsave | exact Hfound].
Defined.

(** X2. [saveSession] keeps session ids unique: if no two stored sessions
    share an id, the same holds after the save. *)
Theorem saveSession_keeps_ids_unique (s : Session) (w : World) :
  faults w = [] ->
  List.NoDup (List.map session_id (saved_sessions w)) ->
  List.NoDup (List.map session_id
                (saved_sessions (snd (StorageService.saveSession s w)))).
Proof.
  intros Hf Hunique. rewrite saveSession_ok by exact Hf.
  cbn [snd]. rewrite saved_sessions_written.
  destruct (StorageService.findIndex (session_id s) (saved_sessions w))
    as [i |] eqn:Hindex.
  - destruct (session_with_id_replaced s _ i Hindex) as (_ & _ & ->).
    exact Hunique.
  - destruct (findIndex_absent _ _ Hindex) as (_ & Hnot).
    rewrite List.map_app. simpl.
    apply NoDup_ListNoDup, NoDup_app. repeat split.
    + now apply NoDup_ListNoDup.
    + intros id Hin Hlast. apply list_elem_of_In in Hin.
      apply list_elem_of_singleton in Hlast. congruence.
    + apply NoDup_singleton.
Qed.

Lemma saveSession_keeps_ids_unique_witness :
  List.NoDup (List.map session_id
     (saved_sessions (snd (StorageService.saveSession session_in_progress
                             (initialised configured_storage [] 1000))))).
Proof.
  apply (saveSession_keeps_ids_unique session_in_progress
           (initialised configured_storage [] 1000)).
  - reflexivity.
  - simpl. constructor.
Defined.

(** [saveSession] of the storage service, with what it leaves alone. *)
Lemma saveSession_upserts_by_id_lemma (s : Session) (w : World) :
  faults w = [] ->
  exists w',
    StorageService.saveSession s w = (Normal tt, w')
    /\ session_with_id (session_id s) (saved_sessions w') = Some s
    /\ (forall id, id <> session_id s ->
          session_with_id id (saved_sessions w')
          = session_with_id id (saved_sessions w))
    /\ CURRENT_SESSION (storage w') = CURRENT_SESSION (storage w)
    /\ faults w' = []
    /\ screen w' = screen w
    /\ alerts w' = alerts w.
Proof.
  intros Hf. eexists. split; [now apply saveSession_ok |].
  rewrite !saved_sessions_written.
  cbn [storage set_storage StorageService.put_SESSIONS CURRENT_SESSION
       faults screen alerts].
  destruct (StorageService.findIndex (session_id s) (saved_sessions w))
    as [i |] eqn:Hindex.
  - destruct (session_with_id_replaced s _ i Hindex) as (Hfound & Hother & _).
    now repeat split.
  - destruct (session_with_id_appended s _ Hindex) as (Hfound & Hother).
    now repeat split.
Qed.

Lemma deleteSession_ok (id : string) (w : World) :
  faults w = [] ->
  StorageService.deleteSession id w =
  (Normal tt,
   set_storage
     (StorageService.put_SESSIONS
        (Some (List.filter (fun s => negb (String.eqb (session_id s) id))
                           (saved_sessions w)))) w).
Proof.
  intros Hf. open_world w. subst.
  destruct stored as [configured [sessions |] marker]; reflexivity.
Qed.

Lemma session_with_id_filtered (id id' : string) (sessions : list Session) :
  session_with_id id'
    (List.filter (fun s => negb (String.eqb (session_id s) id)) sessions)
  = if String.eqb id' id then None else session_with_id id' sessions.
Proof.
  unfold session_with_id.
  induction sessions as [| s rest IH]; simpl.
  - now destruct (String.eqb id' id).
  - destruct (String.eqb_spec (session_id s) id) as [E | NE]; simpl.
    + rewrite IH. destruct (String.eqb_spec id' id) as [E' | NE'];
        [reflexivity |].
      destruct (String.eqb_spec (session_id s) id'); congruence.
    + destruct (String.eqb_spec (session_id s) id') as [E' | NE'].
      * destruct (String.eqb_spec id' id); congruence.
      * exact IH.
Qed.

Lemma filter_sublist {A} (keep : A -> bool) (l : list A) :
  sublist (List.filter keep l) l.
Proof.
  induction l as [| x l IH]; simpl; [constructor |].
  destruct (keep x); now constructor.
Qed.

(** X3. Deleting a session: when no storage call fails, after
    [deleteSession id] no stored session has that id, every session of
    another id is found as before, the remaining sessions keep their order,
    and the current session and the settings are untouched. *)
Theorem deleteSession_removes_id (id : string) (w : World) :
  faults w = [] ->
  exists w',
    StorageService.deleteSession id w = (Normal tt, w')
    /\ ~ In id (List.map session_id (saved_sessions w'))
    /\ (forall id', id' <> id ->
          session_with_id id' (saved_sessions w')
          = session_with_id id' (saved_sessions w))
    /\ sublist (saved_sessions w') (saved_sessions w)
    /\ CURRENT_SESSION (storage w') = CURRENT_SESSION (storage w)
    /\ SETTINGS (storage w') = SETTINGS (storage w).
Proof.
  intros Hf. eexists. split; [now apply deleteSession_ok |].
  rewrite saved_sessions_written. split; [| split; [| split]].
  - rewrite List.in_map_iff. intros (s & Hid & Hin).
    apply List.filter_In in Hin as [_ Hkeep].
    rewrite <- Hid, String.eqb_refl in Hkeep. discriminate.
  - intros id' Hne. rewrite session_with_id_filtered.
    destruct (String.eqb_spec id' id); congruence.
  - apply filter_sublist.
  - now split.
Qed.

Lemma deleteSession_removes_id_witness :
  exists w',
    StorageService.deleteSession "session_1000"
                                 (initialised configured_storage [] 1000)
    = (Normal tt, w')
    /\ ~ In "session_1000" (List.map session_id (saved_sessions w')).
Proof.
  destruct (deleteSession_removes_id "session_1000"
              (initialised configured_storage [] 1000) eq_refl)
    as (w' & Hdelete & Hgone & _).
  exists w'. split; [exact Hdelete | exact Hgone].
Defined.

(** X4. Saving a session of a new id and deleting it again gives back the
    collection as it was. *)
Theorem save_then_delete_restores (s : Session) (w : World) :
  faults w = [] ->
  ~ In (session_id s) (List.map session_id (saved_sessions w)) ->
  saved_sessions
    (snd (StorageService.deleteSession (session_id s)
            (snd (StorageService.saveSession s w))))
  = saved_sessions w.
Proof.
  intros Hf Hnew.
  rewrite saveSession_ok by exact Hf. cbn [snd].
  rewrite deleteSession_ok by exact Hf. cbn [snd].
  rewrite !saved_sessions_written.
  destruct (StorageService.findIndex (session_id s) (saved_sessions w))
    as [i |] eqn:Hindex.
  - exfalso. destruct (findIndex_lookup _ _ _ Hindex) as (found & Hi & Hid & _).
    apply Hnew. rewrite <- Hid. apply List.in_map.
    apply list_elem_of_In. eapply list_elem_of_lookup_2. exact Hi.
  - rewrite List.filter_app. simpl. rewrite String.eqb_refl. simpl.
    rewrite app_nil_r.
    induction (saved_sessions w) as [| t rest IH]; [reflexivity |].
    simpl in *.
    destruct (String.eqb_spec (session_id t) (session_id s)) as [E | NE].
    + exfalso. apply Hnew. now left.
    + simpl. f_equal. apply IH.
      * intros Hin. apply Hnew. now right.
      * destruct (StorageService.findIndex (session_id s) rest);
          [discriminate | reflexivity].
Qed.

Lemma save_then_delete_restores_witness :
  saved_sessions
    (snd (StorageService.deleteSession (session_id session_in_progress)
            (snd (StorageService.saveSession session_in_progress
                    (initialised configured_storage [] 1000)))))
  = [].
Proof.
  apply (save_then_delete_restores session_in_progress
           (initialised configured_storage [] 1000)).
  - reflexivity.
  - simpl. tauto.
Defined.

(** X5. A failed read of the collection is taken for an empty collection:
    when [getItem] fails and the following [setItem] succeeds,
    [saveSession] replaces whatever was stored by the one session, and
    [deleteSession] replaces it by the empty collection; both complete
    without error. *)
Theorem failed_read_replaces_collection
        (s : Session) (id : string) (w : World) (rest : list bool) :
  faults w = true :: false :: rest ->
  (exists w', StorageService.saveSession s w = (Normal tt, w')
              /\ SESSIONS (storage w') = Some [s])
  /\ (exists w', StorageService.deleteSession id w = (Normal tt, w')
                 /\ SESSIONS (storage w') = Some []).
Proof.
  intros Hf. open_world w. subst. split; eexists; split; reflexivity.
Qed.

Lemma failed_read_replaces_collection_witness :
  exists w',
    StorageService.deleteSession "session_0"
      (initialised
         {| SETTINGS := None;
            SESSIONS := Some [session_in_progress];
            CURRENT_SESSION := None |}
         [true; false] 1000)
    = (Normal tt, w')
    /\ SESSIONS (storage w') = Some [].
Proof.
  exact (proj2 (failed_read_replaces_collection
                  session_in_progress "session_0"
                  (initialised
                     {| SETTINGS := None;
                        SESSIONS := Some [session_in_progress];
                        CURRENT_SESSION := None |}
                     [true; false] 1000) [] eq_refl)).
Defined.

(** X6. A failed write is reported and changes nothing: when [setItem] /
    [removeItem] fails, [saveSession], [deleteSession],
    [saveCurrentSession] and [saveSettings] throw the error on to their
    caller and leave the storage as it was. *)
Theorem failed_write_changes_nothing
        (s : Session) (id : string) (marker : option Session)
        (settings : Settings) (w : World) (read_fails : bool)
        (rest : list bool) :
  (faults w = read_fails :: true :: rest ->
   (exists e w', StorageService.saveSession s w = (Throw e, w')
                 /\ storage w' = storage w /\ screen w' = screen w)
   /\ (exists e w', StorageService.deleteSession id w = (Throw e, w')
                    /\ storage w' = storage w /\ screen w' = screen w))
  /\ (faults w = true :: rest ->
      (exists e w', StorageService.saveCurrentSession marker w = (Throw e, w')
                    /\ storage w' = storage w /\ screen w' = screen w)
      /\ (exists e w', StorageService.saveSettings settings w = (Throw e, w')
                       /\ storage w' = storage w /\ screen w' = screen w)).
Proof.
  split; intros Hf; open_world w; subst.
  - destruct read_fails; split; eexists; eexists;
      (split; [reflexivity |]); now split.
  - destruct marker; split; eexists; eexists;
      (split; [reflexivity |]); now split.
Qed.

Lemma failed_write_changes_nothing_witness :
  exists e w',
    StorageService.saveCurrentSession None
      (initialised recording_storage [true] 1000) = (Throw e, w')
    /\ storage w' = recording_storage
    /\ screen w' = screen (initialised recording_storage [true] 1000).
Proof.
  exact (proj1 (proj2 (failed_write_changes_nothing
                         session_in_progress "session_1000" None
                         StorageService.defaultSettings
                         (initialised recording_storage [true] 1000)
                         false []) eq_refl)).
Defined.

(** ** Settings and the current session in storage *)

(** X7. Settings round trip, and the silent fallback: when no storage call
    fails, [getSettings] after [saveSettings s] returns [s]; when the read
    fails, [getSettings] returns the defaults without error, whatever is
    stored. *)
Theorem settings_round_trip (s : Settings) (w : World) :
  (faults w = [] ->
   fst (StorageService.getSettings (snd (StorageService.saveSettings s w)))
   = Normal s)
  /\ (forall rest, faults w = true :: rest ->
        exists w', StorageService.getSettings w
                   = (Normal StorageService.defaultSettings, w')
                   /\ storage w' = storage w).
Proof.
  split.
  - intros Hf. open_world w. subst. reflexivity.
  - intros rest Hf. open_world w. subst. eexists. split; reflexivity.
Qed.

Lemma settings_round_trip_witness :
  fst (StorageService.getSettings
         (snd (StorageService.saveSettings
                 {| targetUuid := canonical_default_uuid;
                    rssiThreshold := -80 |}
                 (initialised empty_storage [] 1000))))
  = Normal {| targetUuid := canonical_default_uuid; rssiThreshold := -80 |}.
Proof.
  exact (proj1 (settings_round_trip
                  {| targetUuid := canonical_default_uuid;
                     rssiThreshold := -80 |}
                  (initialised empty_storage [] 1000)) eq_refl).
Defined.

(** X8. Current session round trip: when no storage call fails,
    [getCurrentSession] returns what [saveCurrentSession] stored, a stored
    read is the last read of the session read back and the earlier reads
    are kept, and after [saveCurrentSession(null)] nothing is read back. *)
Theorem current_session_round_trip
        (current : option Session) (beaconRead : BeaconRead) (w : World) :
  faults w = [] ->
  fst (StorageService.getCurrentSession
         (snd (StorageService.saveCurrentSession current w)))
  = Normal current
  /\ (forall s, CURRENT_SESSION (storage w) = Some s ->
        exists s',
          fst (StorageService.getCurrentSession
                 (snd (StorageService.addBeaconReadToCurrentSession
                         beaconRead w)))
          = Normal (Some s')
          /\ beaconReads s' = (beaconReads s ++ [beaconRead])%list
          /\ session_id s' = session_id s /\ session_name s' = session_name s
          /\ startTime s' = startTime s /\ endTime s' = endTime s).
Proof.
  intros Hf. split.
  - rewrite saveCurrentSession_ok by exact Hf. cbn [snd].
    now rewrite getCurrentSession_ok.
  - intros s Hs. rewrite (addBeaconRead_ok beaconRead s w Hf Hs). cbn [snd].
    rewrite getCurrentSession_ok by exact Hf.
    eexists. split; [reflexivity |]. now repeat split.
Qed.

Lemma current_session_round_trip_witness :
  fst (StorageService.getCurrentSession
         (snd (StorageService.saveCurrentSession (Some session_in_progress)
                 (initialised empty_storage [] 1000))))
  = Normal (Some session_in_progress).
Proof.
  exact (proj1 (current_session_round_trip (Some session_in_progress) read_a
                  (initialised empty_storage [] 1000) eq_refl)).
Defined.

(** ** The discovery handler *)

(** Run a computation on an opened world and name the world it ends in. *)
Ltac run_js :=
  match goal with
  | |- exists w', ?run = (_, w') /\ _ =>
      let out := eval vm_compute in run in
      match out with
      | (_, ?w1) => exists w1; split; [vm_compute; reflexivity |]
      end
  end.

Lemma record_guarded (beaconData : BeaconData) (w : World) :
  exists w',
    try_catch (BleService.record beaconData) on_discovery_error w
    = (Normal tt, w')
    /\ SESSIONS (storage w') = SESSIONS (storage w)
    /\ SETTINGS (storage w') = SETTINGS (storage w)
    /\ currentSession (screen w') = currentSession (screen w)
    /\ ble w' = ble w
    /\ (CURRENT_SESSION (storage w') = CURRENT_SESSION (storage w)
        \/ exists s r,
             CURRENT_SESSION (storage w) = Some s
             /\ CURRENT_SESSION (storage w')
                = Some (StorageService.push_read s r)
             /\ read_uuid r = uuid beaconData
             /\ read_rssi r = beacon_rssi beaconData
             /\ read_major r = major beaconData
             /\ read_minor r = minor beaconData
             /\ read_timestamp r = now w).
Proof.
  open_world w. destruct stored as [configured saved [marker |]];
    destruct suffixes as [| suffix more];
    destruct oracle as [| [|] [| [|] rest]];
    destruct callback as [[] |];
    run_js; lazy;
    repeat (split; [reflexivity |]);
    first [ now left
          | right; eexists; eexists; split; [reflexivity |];
            split; [reflexivity |]; now repeat split ].
Qed.

(** X9. The discovery handler never fails and only ever appends: for every
    peripheral and every world it completes normally, leaves the saved
    sessions, the settings and the screen's session alone, and the stored
    current session is either unchanged or has gained exactly one read, at
    its end, which meets the criteria the scan was started with and carries
    the time of the clock. *)
Theorem handler_only_appends_matching_reads
        (peripheral : option Peripheral) (w : World) :
  exists w',
    BleService.handlePeripheralDiscovered peripheral w = (Normal tt, w')
    /\ SESSIONS (storage w') = SESSIONS (storage w)
    /\ SETTINGS (storage w') = SETTINGS (storage w)
    /\ currentSession (screen w') = currentSession (screen w)
    /\ ble w' = ble w
    /\ (CURRENT_SESSION (storage w') = CURRENT_SESSION (storage w)
        \/ exists s r settings,
             CURRENT_SESSION (storage w) = Some s
             /\ CURRENT_SESSION (storage w')
                = Some (StorageService.push_read s r)
             /\ ble_settings (ble w) = Some settings
             /\ read_meets_criteria r settings
             /\ read_timestamp r = now w).
Proof.
  destruct (ble_settings (ble w)) as [settings |] eqn:Hs;
    [destruct (onBeaconFound (ble w)) as [callback |] eqn:Hc |].
  - destruct (parse_normal peripheral w) as (result & w1 & Hparse & Hw1).
    destruct result as [beaconData |].
    + assert (w1 = w) as -> by (destruct Hw1 as [E | (_ & E & _)]; congruence).
      rewrite (handler_filters peripheral w settings callback beaconData
                 Hs Hc Hparse).
      destruct (BleService.accept beaconData settings) eqn:Haccept.
      * destruct (record_guarded beaconData w)
          as (w' & Hrun & H1 & H2 & H3 & H4 & Hcur).
        exists w'. repeat (split; [assumption |]).
        destruct Hcur as [Hsame | (s & r & Hold & Hnew & Hu & Hr & _ & _ & Ht)];
          [now left |].
        right. exists s, r, settings.
        repeat (split; [first [assumption | reflexivity] |]).
        split; [| exact Ht].
        apply accept_meets_criteria in Haccept as [Huuid Hrssi].
        unfold read_meets_criteria. now rewrite Hu, Hr.
      * exists w. repeat split. now left.
    + exists w1. unfold BleService.handlePeripheralDiscovered.
      unfold bind at 1. unfold gets at 1. rewrite Hs, Hc.
      unfold try_catch, bind. rewrite Hparse.
      destruct Hw1 as [-> | (_ & _ & ->)]; repeat split; now left.
  - exists w. unfold BleService.handlePeripheralDiscovered.
    unfold bind, gets. rewrite Hs, Hc. repeat split. now left.
  - exists w. unfold BleService.handlePeripheralDiscovered.
    unfold bind, gets. rewrite Hs. repeat split. now left.
Qed.

(** ** Scans *)



(** X10. Settings are read when a scan starts: while a scan runs, newly
    saved settings do not reach the filter (starting again without stopping
    does not load them); after stop and start the filter uses them. *)
Theorem new_settings_need_restart (settings : Settings) (w : World) :
  faults w = [] -> ble_isScanning (ble w) = true ->
  let w1 := snd (StorageService.saveSettings settings w) in
  ble_settings (ble w1) = ble_settings (ble w)
  /\ ble_settings (ble (snd (BleService.startScanning w1)))
     = ble_settings (ble w)
  /\ ble_settings
       (ble (snd ((BleService.stopScanning ;; BleService.startScanning) w1)))
     = Some settings.
Proof.
  intros Hf Hscan. open_world w. subst. now repeat split.
Qed.

Lemma new_settings_need_restart_witness :
  let w := set_ble (BleService.put_isScanning true)
                   (initialised configured_storage [] 1000) in
  let w1 := snd (StorageService.saveSettings
                   {| targetUuid := canonical_default_uuid;
                      rssiThreshold := -80 |} w) in
  ble_settings (ble w1) = None
  /\ ble_settings (ble (snd (BleService.startScanning w1))) = None
  /\ ble_settings
       (ble (snd ((BleService.stopScanning ;; BleService.startScanning) w1)))
     = Some {| targetUuid := canonical_default_uuid; rssiThreshold := -80 |}.
Proof.
  apply (new_settings_need_restart
           {| targetUuid := canonical_default_uuid; rssiThreshold := -80 |}
           (set_ble (BleService.put_isScanning true)
                    (initialised configured_storage [] 1000)));
    reflexivity.
Defined.

(** X11. Stopping the scan does not touch the session: [stopScanning] of
    the screen always completes, leaves the storage, the screen's session
    and the reads shown as they were; when no native call fails both
    scanning flags are off afterwards, and when [stopScan] fails both stay
    as they were and the operator is told. *)
Theorem stop_keeps_session (w : World) :
  exists w',
    ScanningScreen.stopScanning w = (Normal tt, w')
    /\ storage w' = storage w
    /\ currentSession (screen w') = currentSession (screen w)
    /\ screen_beaconReads (screen w') = screen_beaconReads (screen w)
    /\ (faults w = [] ->
        isScanning (screen w') = false /\ ble_isScanning (ble w') = false)
    /\ (forall rest, faults w = true :: rest ->
        ble_isScanning (ble w) = true ->
        isScanning (screen w') = isScanning (screen w)
        /\ ble_isScanning (ble w') = true
        /\ alerts w'
           = (alerts w ++ [("Error", "Failed to stop scanning")])%list).
Proof.
  open_world w.
  destruct scanning; destruct oracle as [| [|] rest];
    eexists; (split; [reflexivity |]); simpl;
    repeat (split; [reflexivity |]); split;
    try discriminate; intros; try discriminate; now repeat split.
Qed.



(** ** UUID strings *)

Lemma remove_hyphens_cons (c : ascii) (s : string) :
  uuidUtils.remove_hyphens (String c s)
  = if Ascii.eqb c "-" then uuidUtils.remove_hyphens s
    else String c (uuidUtils.remove_hyphens s).
Proof. destruct c as [[] [] [] [] [] [] [] []]; reflexivity. Qed.

Lemma upper_char_hyphen (c : ascii) :
  Ascii.eqb (upper_char c) "-" = Ascii.eqb c "-".
Proof. destruct c as [[] [] [] [] [] [] [] []]; reflexivity. Qed.


Lemma is_hex_upper_char (c : ascii) :
  uuidUtils.is_hex (upper_char c) = uuidUtils.is_hex c.
Proof. destruct c as [[] [] [] [] [] [] [] []]; reflexivity. Qed.

Lemma is_hex_not_hyphen (c : ascii) :
  uuidUtils.is_hex c = true -> Ascii.eqb c "-" = false.
Proof. destruct c as [[] [] [] [] [] [] [] []]; vm_compute; congruence. Qed.


Lemma toUpperCase_length (s : string) :
  String.length (toUpperCase s) = String.length s.
Proof.
  unfold toUpperCase. induction s as [| c s IH]; simpl; congruence.
Qed.

Lemma toUpperCase_app (s t : string) :
  toUpperCase (s ++ t) = (toUpperCase s ++ toUpperCase t)%string.
Proof.
  unfold toUpperCase. induction s as [| c s IH]; simpl; [reflexivity |].
  now rewrite IH.
Qed.



Lemma remove_hyphens_app (s t : string) :
  uuidUtils.remove_hyphens (s ++ t)
  = (uuidUtils.remove_hyphens s ++ uuidUtils.remove_hyphens t)%string.
Proof.
  induction s as [| c s IH]; [reflexivity |].
  change (String c s ++ t)%string with (String c (s ++ t)).
  rewrite !remove_hyphens_cons, IH. now destruct (Ascii.eqb c "-").
Qed.







Lemma hex_upper_length (bytes : list Z) :
  String.length (hex_upper bytes) = (2 * length bytes)%nat.
Proof. induction bytes as [| b bytes IH]; simpl; lia. Qed.

Lemma groups_of_hex_upper (bytes : list Z) :
  length bytes = 16%nat ->
  join "-" [ js_substring 0 8 (hex_upper bytes);
             js_substring 8 12 (hex_upper bytes);
             js_substring 12 16 (hex_upper bytes);
             js_substring 16 20 (hex_upper bytes);
             js_substring 20 32 (hex_upper bytes) ]
  = canonical_uuid bytes.
Proof.
  intros Hlen.
  do 16 (destruct bytes as [| ? bytes]; [discriminate Hlen |]).
  destruct bytes; [| discriminate Hlen]. reflexivity.
Qed.

Lemma formatUUID_of_hex (typed : string) (bytes : list Z) :
  length bytes = 16%nat ->
  toUpperCase (uuidUtils.remove_hyphens typed) = hex_upper bytes ->
  uuidUtils.formatUUID typed = canonical_uuid bytes.
Proof.
  intros Hlen Htyped.
  unfold uuidUtils.formatUUID. rewrite Htyped, hex_upper_length, Hlen.
  cbn [Nat.mul Nat.add Nat.eqb]. now apply groups_of_hex_upper.
Qed.

(** X14. What the operator types is brought into the decoder's format: if
    the text, without hyphens and in upper case, is the 32 hexadecimal
    digits of sixteen bytes, then [formatUUID] of the text is exactly the
    string [bytesToUUID] emits for these bytes; it passes [isValidUUID],
    and as target UUID it passes the UUID check of the filter for an
    advertisement carrying these bytes. *)
Theorem formatUUID_matches_decoder (typed : string) (bytes : list Z) :
  length bytes = 16%nat -> Forall is_byte bytes ->
  toUpperCase (uuidUtils.remove_hyphens typed) = hex_upper bytes ->
  uuidUtils.formatUUID typed = BleService.bytesToUUID bytes
  /\ uuidUtils.isValidUUID (uuidUtils.formatUUID typed) = true
  /\ forall major minor signal threshold,
       BleService.uuid_differs
         {| uuid := BleService.bytesToUUID bytes; major := major;
            minor := minor; beacon_rssi := signal |}
         {| targetUuid := uuidUtils.formatUUID typed;
            rssiThreshold := threshold |} = false.
Proof.
  intros Hlen Hbytes Htyped.
  pose proof (formatUUID_of_hex typed bytes Hlen Htyped) as Hformat.
  rewrite bytesToUUID_canonical, Hformat by assumption.
  split; [reflexivity |]. split.
  - now apply canonical_uuid_valid.
  - intros. unfold BleService.uuid_differs. cbn [uuid targetUuid].
    now rewrite String.eqb_refl.
Qed.

Lemma formatUUID_matches_decoder_witness :
  uuidUtils.formatUUID "e101b392ada3-22242316-05ef58774925"
  = BleService.bytesToUUID fixture_uuid_bytes.
Proof.
  refine (proj1 (formatUUID_matches_decoder
                   "e101b392ada3-22242316-05ef58774925"
                   fixture_uuid_bytes _ _ _)).
  - reflexivity.
  - unfold fixture_uuid_bytes.
    repeat (constructor; [unfold is_byte; lia |]). constructor.
  - reflexivity.
Defined.

Lemma hyphen_cons (c : ascii) (s : string) :
  uuidUtils.hyphen (String c s) = if Ascii.eqb c "-" then Some s else None.
Proof. destruct c as [[] [] [] [] [] [] [] []]; reflexivity. Qed.

Lemma all_hex_cons (c : ascii) (s : string) :
  all_hex (String c s) <-> uuidUtils.is_hex c = true /\ all_hex s.
Proof.
  unfold all_hex. simpl. split.
  - intros H. split; [apply H; now left | intros d Hd; apply H; now right].
  - intros [Hc Hs] d [<- | Hd]; [exact Hc | now apply Hs].
Qed.

Lemma all_hex_empty : all_hex "".
Proof. intros c []. Qed.

(** [hex_group n] takes exactly [n] hexadecimal digits off the front. *)
Lemma hex_group_spec (n : nat) (s rest : string) :
  uuidUtils.hex_group n s = Some rest
  <-> exists group,
        s = (group ++ rest)%string /\ String.length group = n
        /\ all_hex group.
Proof.
  revert s. induction n as [| n IH]; intros s; simpl.
  - split.
    + intros H. injection H as <-. exists "". repeat split. apply all_hex_empty.
    + intros ([| c g] & -> & Hlen & _); [reflexivity | discriminate].
  - destruct s as [| c s].
    + split; [discriminate |].
      intros ([| d g] & Hs & Hlen & _); discriminate.
    + split.
      * destruct (uuidUtils.is_hex c) eqn:Hc; [| discriminate].
        intros H. apply IH in H as (g & -> & Hlen & Hhex).
        exists (String c g).
        split; [reflexivity | split; [simpl; now rewrite Hlen |]].
        now apply all_hex_cons.
      * intros ([| d g] & Hs & Hlen & Hhex); [discriminate |].
        simpl in Hs. injection Hs as <- ->.
        apply all_hex_cons in Hhex as [-> Hhex].
        apply IH. exists g.
        split; [reflexivity | split; [simpl in Hlen; congruence | exact Hhex]].
Qed.

Lemma hyphen_spec (s rest : string) :
  uuidUtils.hyphen s = Some rest <-> s = String "-" rest.
Proof.
  destruct s as [| c s]; [split; discriminate |].
  rewrite hyphen_cons. destruct (Ascii.eqb_spec c "-") as [-> | NE].
  - split; congruence.
  - split; [discriminate | congruence].
Qed.

Lemma append_nil_r_string (s : string) : (s ++ "")%string = s.
Proof. induction s as [| c s IH]; simpl; congruence. Qed.

Lemma valid_iff_shape (s : string) :
  uuidUtils.isValidUUID s = true <-> canonical_shape s.
Proof.
  unfold uuidUtils.isValidUUID, canonical_shape. split.
  - destruct (uuidUtils.hex_group 8 s) as [r1 |] eqn:H1; cbn [mbind option_bind];
      [| discriminate].
    destruct (uuidUtils.hyphen r1) as [r2 |] eqn:H2; cbn [mbind option_bind]; [| discriminate].
    destruct (uuidUtils.hex_group 4 r2) as [r3 |] eqn:H3; cbn [mbind option_bind];
      [| discriminate].
    destruct (uuidUtils.hyphen r3) as [r4 |] eqn:H4; cbn [mbind option_bind]; [| discriminate].
    destruct (uuidUtils.hex_group 4 r4) as [r5 |] eqn:H5; cbn [mbind option_bind];
      [| discriminate].
    destruct (uuidUtils.hyphen r5) as [r6 |] eqn:H6; cbn [mbind option_bind]; [| discriminate].
    destruct (uuidUtils.hex_group 4 r6) as [r7 |] eqn:H7; cbn [mbind option_bind];
      [| discriminate].
    destruct (uuidUtils.hyphen r7) as [r8 |] eqn:H8; cbn [mbind option_bind]; [| discriminate].
    destruct (uuidUtils.hex_group 12 r8) as [[| c r9] |] eqn:H9;
      try discriminate.
    intros _.
    apply hex_group_spec in H1 as (g1 & -> & L1 & X1).
    apply hyphen_spec in H2 as ->.
    apply hex_group_spec in H3 as (g2 & -> & L2 & X2).
    apply hyphen_spec in H4 as ->.
    apply hex_group_spec in H5 as (g3 & -> & L3 & X3).
    apply hyphen_spec in H6 as ->.
    apply hex_group_spec in H7 as (g4 & -> & L4 & X4).
    apply hyphen_spec in H8 as ->.
    apply hex_group_spec in H9 as (g5 & -> & L5 & X5).
    exists g1, g2, g3, g4, g5. rewrite append_nil_r_string.
    now repeat split.
  - intros (g1 & g2 & g3 & g4 & g5 & -> & L1 & L2 & L3 & L4 & L5
            & X1 & X2 & X3 & X4 & X5).
    rewrite (proj2 (hex_group_spec 8 _ _)) by (exists g1; now repeat split).
    cbn [mbind option_bind uuidUtils.hyphen String.append].
    rewrite (proj2 (hex_group_spec 4 _ _)) by (exists g2; now repeat split).
    cbn [mbind option_bind uuidUtils.hyphen String.append].
    rewrite (proj2 (hex_group_spec 4 _ _)) by (exists g3; now repeat split).
    cbn [mbind option_bind uuidUtils.hyphen String.append].
    rewrite (proj2 (hex_group_spec 4 _ _)) by (exists g4; now repeat split).
    cbn [mbind option_bind uuidUtils.hyphen String.append].
    rewrite (proj2 (hex_group_spec 12 g5 ""));
      [reflexivity |].
    exists g5. rewrite append_nil_r_string. now repeat split.
Qed.

(** X15. The regular expression of [isValidUUID] accepts exactly the
    strings made of five groups of 8, 4, 4, 4 and 12 hexadecimal digits
    (either case) joined by single hyphens, and nothing before or after. *)
Theorem isValidUUID_iff_canonical_shape (s : string) :
  uuidUtils.isValidUUID s = true <-> canonical_shape s.
Proof.
  split; intros H.
  - now apply valid_iff_shape.
  - now apply valid_iff_shape.
Qed.

Section case_map.

Variable f : ascii -> ascii.
Hypothesis f_hex : forall c, uuidUtils.is_hex (f c) = uuidUtils.is_hex c.
Hypothesis f_hyphen : forall c, Ascii.eqb (f c) "-" = Ascii.eqb c "-".

Lemma hex_group_map (n : nat) (s : string) :
  uuidUtils.hex_group n (string_map f s)
  = string_map f <$> uuidUtils.hex_group n s.
Proof.
  revert s. induction n as [| n IH]; intros s; [reflexivity |].
  destruct s as [| c s]; [reflexivity |].
  simpl. rewrite f_hex. destruct (uuidUtils.is_hex c); [apply IH | reflexivity].
Qed.

Lemma hyphen_map (s : string) :
  uuidUtils.hyphen (string_map f s) = string_map f <$> uuidUtils.hyphen s.
Proof.
  destruct s as [| c s]; [reflexivity |].
  cbn [string_map]. rewrite !hyphen_cons, f_hyphen.
  now destruct (Ascii.eqb c "-").
Qed.

Lemma isValidUUID_map (s : string) :
  uuidUtils.isValidUUID (string_map f s) = uuidUtils.isValidUUID s.
Proof.
  unfold uuidUtils.isValidUUID.
  rewrite hex_group_map.
  destruct (uuidUtils.hex_group 8 s) as [r1 |];
    cbn [fmap option_fmap option_map mbind option_bind]; [| reflexivity].
  rewrite hyphen_map.
  destruct (uuidUtils.hyphen r1) as [r2 |];
    cbn [fmap option_fmap option_map mbind option_bind]; [| reflexivity].
  rewrite hex_group_map.
  destruct (uuidUtils.hex_group 4 r2) as [r3 |];
    cbn [fmap option_fmap option_map mbind option_bind]; [| reflexivity].
  rewrite hyphen_map.
  destruct (uuidUtils.hyphen r3) as [r4 |];
    cbn [fmap option_fmap option_map mbind option_bind]; [| reflexivity].
  rewrite hex_group_map.
  destruct (uuidUtils.hex_group 4 r4) as [r5 |];
    cbn [fmap option_fmap option_map mbind option_bind]; [| reflexivity].
  rewrite hyphen_map.
  destruct (uuidUtils.hyphen r5) as [r6 |];
    cbn [fmap option_fmap option_map mbind option_bind]; [| reflexivity].
  rewrite hex_group_map.
  destruct (uuidUtils.hex_group 4 r6) as [r7 |];
    cbn [fmap option_fmap option_map mbind option_bind]; [| reflexivity].
  rewrite hyphen_map.
  destruct (uuidUtils.hyphen r7) as [r8 |];
    cbn [fmap option_fmap option_map mbind option_bind]; [| reflexivity].
  rewrite hex_group_map.
  destruct (uuidUtils.hex_group 12 r8) as [[| c r9] |]; reflexivity.
Qed.

End case_map.

Lemma remove_hyphens_all_hex (g : string) :
  all_hex g -> uuidUtils.remove_hyphens g = g.
Proof.
  induction g as [| c g IH]; intros H; [reflexivity |].
  apply all_hex_cons in H as [Hc Hg].
  now rewrite remove_hyphens_cons, (is_hex_not_hyphen c Hc), IH.
Qed.

Lemma substring_past (a b : string) (m k n : nat) :
  String.length a = m ->
  String.substring (m + k) n (a ++ b) = String.substring k n b.
Proof.
  intros <-. induction a as [| c a IH]; [reflexivity | exact IH].
Qed.

Lemma substring_front (a b : string) (n : nat) :
  String.length a = n -> String.substring 0 n (a ++ b) = a.
Proof.
  intros <-. induction a as [| c a IH]; simpl.
  - now destruct b.
  - now rewrite IH.
Qed.

Lemma string_length_app (a b : string) :
  String.length (a ++ b) = (String.length a + String.length b)%nat.
Proof. induction a as [| c a IH]; simpl; congruence. Qed.

(** The groups of five pieces of 8, 4, 4, 4 and 12 characters. *)
Lemma groups_of_pieces (u1 u2 u3 u4 u5 : string) :
  String.length u1 = 8%nat -> String.length u2 = 4%nat ->
  String.length u3 = 4%nat -> String.length u4 = 4%nat ->
  String.length u5 = 12%nat ->
  let t := (u1 ++ u2 ++ u3 ++ u4 ++ u5)%string in
  join "-" [ js_substring 0 8 t; js_substring 8 12 t; js_substring 12 16 t;
             js_substring 16 20 t; js_substring 20 32 t ]
  = (u1 ++ "-" ++ u2 ++ "-" ++ u3 ++ "-" ++ u4 ++ "-" ++ u5)%string.
Proof.
  intros L1 L2 L3 L4 L5 t. unfold js_substring. cbn [Nat.sub join].
  assert (String.substring 0 8 t = u1) as ->
      by (unfold t; now apply substring_front).
  assert (String.substring 8 4 t = u2) as ->.
  { unfold t. rewrite (substring_past u1 _ 8 0 4 L1).
    now apply substring_front. }
  assert (String.substring 12 4 t = u3) as ->.
  { unfold t. rewrite (substring_past u1 _ 8 4 4 L1).
    rewrite (substring_past u2 _ 4 0 4 L2). now apply substring_front. }
  assert (String.substring 16 4 t = u4) as ->.
  { unfold t. rewrite (substring_past u1 _ 8 8 4 L1).
    rewrite (substring_past u2 _ 4 4 4 L2).
    rewrite (substring_past u3 _ 4 0 4 L3). now apply substring_front. }
  assert (String.substring 20 12 t = u5) as ->.
  { unfold t. rewrite (substring_past u1 _ 8 12 12 L1).
    rewrite (substring_past u2 _ 4 8 12 L2).
    rewrite (substring_past u3 _ 4 4 12 L3).
    rewrite (substring_past u4 _ 4 0 12 L4).
    rewrite <- (append_nil_r_string u5) at 1.
    now apply substring_front. }
  reflexivity.
Qed.

Lemma valid_formatted (s : string) :
  uuidUtils.isValidUUID s = true ->
  String.length s = 36%nat
  /\ uuidUtils.formatUUID s = toUpperCase s
  /\ uuidUtils.isValidUUID (uuidUtils.formatUUID s) = true.
Proof.
  intros Hvalid.
  assert (String.length s = 36%nat
          /\ uuidUtils.formatUUID s = toUpperCase s) as [Hlen Hformat].
  { apply valid_iff_shape in Hvalid
      as (g1 & g2 & g3 & g4 & g5 & -> & L1 & L2 & L3 & L4 & L5
          & X1 & X2 & X3 & X4 & X5).
    split.
    - rewrite !string_length_app, L1, L2, L3, L4, L5. reflexivity.
    - rewrite (toUpperCase_app g1), (toUpperCase_app "-"),
        (toUpperCase_app g2), (toUpperCase_app "-"),
        (toUpperCase_app g3), (toUpperCase_app "-"),
        (toUpperCase_app g4), (toUpperCase_app "-").
      change (toUpperCase "-") with "-".
      unfold uuidUtils.formatUUID.
      rewrite !remove_hyphens_app.
      change (uuidUtils.remove_hyphens "-") with "".
      cbn [String.append].
      rewrite !remove_hyphens_all_hex by assumption.
      rewrite !toUpperCase_app.
      rewrite !string_length_app, !toUpperCase_length, L1, L2, L3, L4, L5.
      cbn [Nat.add Nat.eqb].
      rewrite groups_of_pieces by (rewrite toUpperCase_length; assumption).
      reflexivity. }
  repeat split; [exact Hlen | exact Hformat |].
  rewrite Hformat. unfold toUpperCase.
  rewrite (isValidUUID_map upper_char is_hex_upper_char upper_char_hyphen).
  exact Hvalid.
Qed.

(** X16. A string that passes [isValidUUID] has 36 characters, and
    [formatUUID] only changes the case of its letters; the result passes
    [isValidUUID] again. *)
Theorem formatUUID_of_valid (s : string) :
  uuidUtils.isValidUUID s = true ->
  String.length s = 36%nat
  /\ uuidUtils.formatUUID s = toUpperCase s
  /\ uuidUtils.isValidUUID (uuidUtils.formatUUID s) = true.
Proof.
  intros Hvalid. destruct (valid_formatted s Hvalid) as (Hlen & Hformat & H).
  now repeat split.
Qed.

Lemma formatUUID_of_valid_witness :
  uuidUtils.formatUUID "e101b392-ada3-2224-2316-05ef58774925"
  = "E101B392-ADA3-2224-2316-05EF58774925".
Proof.
  exact (proj1 (proj2 (formatUUID_of_valid
                         "e101b392-ada3-2224-2316-05ef58774925" eq_refl))).
Defined.


(** A property of every number below [bound], checked one by one. *)
Lemma below_cases (bound : nat) (check : Z -> bool) :
  forallb (fun k => check (Z.of_nat k)) (seq 0 bound) = true ->
  forall n, 0 <= n < Z.of_nat bound -> check n = true.
Proof.
  intros Hall n Hn. rewrite forallb_forall in Hall.
  specialize (Hall (Z.to_nat n)). rewrite Z2Nat.id in Hall by lia.
  apply Hall, in_seq. lia.
Qed.

Lemma nibble_toString16 (n : Z) :
  0 <= n < 16 ->
  toString16 n = String (lower_char (hex_digit n)) ""
  /\ upper_char (lower_char (hex_digit n)) = hex_digit n.
Proof.
  intros Hn.
  pose proof (below_cases 16 (fun k =>
    String.eqb (toString16 k) (String (lower_char (hex_digit k)) "")
    && Ascii.eqb (upper_char (lower_char (hex_digit k))) (hex_digit k))
    ltac:(vm_compute; reflexivity) n Hn) as Hcheck.
  apply andb_true_iff in Hcheck as [Htext Hupper].
  split; [now apply String.eqb_eq | now apply Ascii.eqb_eq].
Qed.

Lemma variant_toString16 (n : Z) :
  0 <= n < 16 ->
  toString16 (Z.lor (Z.land (ToInt32 n) 3) 8)
  = String (lower_char (hex_digit (8 + n mod 4))) ""
  /\ upper_char (lower_char (hex_digit (8 + n mod 4)))
     = hex_digit (8 + n mod 4)
  /\ 8 <= 8 + n mod 4 <= 11.
Proof.
  intros Hn.
  pose proof (below_cases 16 (fun k =>
    String.eqb (toString16 (Z.lor (Z.land (ToInt32 k) 3) 8))
               (String (lower_char (hex_digit (8 + k mod 4))) "")
    && Ascii.eqb (upper_char (lower_char (hex_digit (8 + k mod 4))))
                 (hex_digit (8 + k mod 4)))
    ltac:(vm_compute; reflexivity) n Hn) as Hcheck.
  apply andb_true_iff in Hcheck as [Htext Hupper].
  split; [now apply String.eqb_eq |]. split; [now apply Ascii.eqb_eq |].
  pose proof (Z.mod_pos_bound n 4 ltac:(lia)). lia.
Qed.

Lemma is_hex_hex_digit (n : Z) : uuidUtils.is_hex (hex_digit n) = true.
Proof.
  destruct n as [| p | p]; try reflexivity.
  do 4 (destruct p as [p | p |]; try reflexivity).
Qed.

Lemma upper_hex_digit (n : Z) : upper_char (hex_digit n) = hex_digit n.
Proof.
  destruct n as [| p | p]; try reflexivity.
  do 4 (destruct p as [p | p |]; try reflexivity).
Qed.

(** X18. [generateUUID] always produces a valid version-4 UUID: whatever
    [Math.random] returns, the result has 36 characters, passes
    [isValidUUID], is left unchanged by [formatUUID], has the version digit
    4 and a variant digit among 8, 9, A and B. *)
Theorem generateUUID_valid (nibble : nat -> Z) :
  (forall i, 0 <= nibble i < 16) ->
  String.length (uuidUtils.generateUUID nibble) = 36%nat
  /\ uuidUtils.isValidUUID (uuidUtils.generateUUID nibble) = true
  /\ uuidUtils.formatUUID (uuidUtils.generateUUID nibble)
     = uuidUtils.generateUUID nibble
  /\ char_at 14 (uuidUtils.generateUUID nibble) = Some "4"%char
  /\ exists variant,
       char_at 19 (uuidUtils.generateUUID nibble) = Some (hex_digit variant)
       /\ 8 <= variant <= 11.
Proof.
  intros Hnibble.
  assert (exists text,
             uuidUtils.generateUUID nibble = text
             /\ String.length text = 36%nat
             /\ uuidUtils.isValidUUID text = true
             /\ toUpperCase text = text
             /\ char_at 14 text = Some "4"%char
             /\ char_at 19 text = Some (hex_digit (8 + nibble 15%nat mod 4)))
    as (text & Htext & Hlen & Hvalid & Hupper & Hversion & Hvariant).
  { eexists. split.
    - unfold uuidUtils.generateUUID.
      cbv beta iota delta [uuidUtils.fill_pattern Ascii.eqb Bool.eqb andb] fix.
      rewrite (proj1 (variant_toString16 _ (Hnibble 15%nat))).
      rewrite !(fun i => proj1 (nibble_toString16 _ (Hnibble i))).
      cbn -[hex_digit lower_char upper_char Z.modulo Z.add].
      rewrite (proj1 (proj2 (variant_toString16 _ (Hnibble 15%nat)))).
      rewrite !(fun i => proj2 (nibble_toString16 _ (Hnibble i))).
      change (upper_char "-") with "-"%char.
      change (upper_char "4") with "4"%char.
      reflexivity.
    - split; [reflexivity |]. split.
      + apply valid_iff_shape.
        eexists (String _ (String _ (String _ (String _ (String _ (String _
                  (String _ (String _ "")))))))),
                (String _ (String _ (String _ (String _ "")))),
                (String _ (String _ (String _ (String _ "")))),
                (String _ (String _ (String _ (String _ "")))),
                (String _ (String _ (String _ (String _ (String _ (String _
                  (String _ (String _ (String _ (String _ (String _
                  (String _ "")))))))))))).
        split; [reflexivity |].
        do 5 (split; [reflexivity |]).
        repeat split;
          repeat (apply all_hex_cons;
                  split; [first [apply is_hex_hex_digit | reflexivity] |]);
          apply all_hex_empty.
      + split; [| split; reflexivity].
        unfold toUpperCase. cbn [string_map].
        rewrite !upper_hex_digit.
        reflexivity. }
  rewrite Htext. repeat (split; [assumption |]). split.
  - destruct (valid_formatted text Hvalid) as (_ & -> & _). exact Hupper.
  - split; [exact Hversion |].
    exists (8 + nibble 15%nat mod 4). split; [exact Hvariant |].
    apply (variant_toString16 _ (Hnibble 15%nat)).
Qed.

Lemma generateUUID_valid_witness :
  uuidUtils.isValidUUID (uuidUtils.generateUUID (fun i => Z.of_nat i mod 16))
  = true.
Proof.
  refine (proj1 (proj2 (generateUUID_valid (fun i => Z.of_nat i mod 16) _))).
  intros i. apply Z.mod_pos_bound. lia.
Defined.

(** ** The session on the screen *)

(** X19. Clearing discards the session: after start and any number of
    accepted advertisements, the confirmed "Clear" removes the
    current-session marker, empties the screen and writes nothing to the
    saved sessions, so the recorded reads are gone; a cancelled "Clear"
    leaves storage and screen as they were. *)
Theorem clear_discards_recorded_reads
        (w : World) (arrivals : list (Z * option Peripheral)) :
  ready_to_start w ->
  Forall (fun arrival => accepted_under (settings_in_effect w) (snd arrival))
         arrivals ->
  let before := run (PressStart :: recordings arrivals) w in
  let cleared := snd (fire (PressClear true) before) in
  let kept := snd (fire (PressClear false) before) in
  (length <$> stored_reads before) = Some (length arrivals)
  /\ CURRENT_SESSION (storage cleared) = None
  /\ SESSIONS (storage cleared) = SESSIONS (storage w)
  /\ currentSession (screen cleared) = None
  /\ screen_beaconReads (screen cleared) = []
  /\ storage kept = storage before
  /\ screen kept = screen before.
Proof.
  intros Hready Hall before cleared kept.
  assert (recording_into (opened_session w) (settings_in_effect w)
                         (SESSIONS (storage w)) (length arrivals) before)
    as (Hf & _ & _ & _ & _ & Hsaved & reads & Hstored & Hlen).
  { subst before. cbn [run].
    apply (recordings_accepted _ _ _ arrivals 0); [| exact Hall].
    now apply start_opens_session. }
  split.
  - unfold stored_reads. rewrite Hstored. simpl. now rewrite Hlen.
  - subst cleared kept. clearbody before. clear Hstored.
    open_world before. subst. now repeat split.
Qed.

Lemma clear_discards_recorded_reads_witness :
  let w := initialised configured_storage [] 1000 in
  let before :=
    run (PressStart
           :: recordings [(1005, discovered fixture_frame (Some (-60)))]) w in
  let cleared := snd (fire (PressClear true) before) in
  let kept := snd (fire (PressClear false) before) in
  (length <$> stored_reads before) = Some 1%nat
  /\ CURRENT_SESSION (storage cleared) = None
  /\ SESSIONS (storage cleared) = None
  /\ currentSession (screen cleared) = None
  /\ screen_beaconReads (screen cleared) = []
  /\ storage kept = storage before
  /\ screen kept = screen before.
Proof.
  apply (clear_discards_recorded_reads
           (initialised configured_storage [] 1000)
           [(1005, discovered fixture_frame (Some (-60)))]).
  - unfold ready_to_start. simpl. repeat split.
  - constructor; [| constructor].
    cbv beta. cbn [snd]. eexists. split.
    + intros w. rewrite parse_discovered. reflexivity.
    + vm_compute. reflexivity.
Defined.

Lemma screen_save_ok (cur : Session) (w : World) :
  faults w = [] ->
  currentSession (screen w) = Some cur ->
  trim (sessionName (screen w)) <> "" ->
  exists w',
    ScanningScreen.saveSession w = (Normal tt, w')
    /\ session_with_id (session_id cur) (saved_sessions w')
       = Some {| session_id := session_id cur;
                 session_name := trim (sessionName (screen w));
                 startTime := startTime cur;
                 endTime := Some (now w);
                 beaconReads := beaconReads cur |}
    /\ (forall id, id <> session_id cur ->
          session_with_id id (saved_sessions w')
          = session_with_id id (saved_sessions w))
    /\ CURRENT_SESSION (storage w') = None
    /\ currentSession (screen w') = None
    /\ screen_beaconReads (screen w') = []
    /\ sessionName (screen w') = ""
    /\ alerts w' = (alerts w ++ [("Success", "Session saved successfully")])%list.
Proof.
  intros Hf Hcur Hname.
  set (saved := {| session_id := session_id cur;
                   session_name := trim (sessionName (screen w));
                   startTime := startTime cur;
                   endTime := Some (now w);
                   beaconReads := beaconReads cur |}).
  destruct (saveSession_upserts_by_id_lemma saved w Hf)
    as (w1 & Hsave & Hfound & Hother & Hmarker & Hf1 & Hrest).
  unfold ScanningScreen.saveSession. js_unfold. unfold gets.
  cbv beta iota zeta.
  destruct (String.eqb_spec (trim (sessionName (screen w))) "") as [E | _];
    [contradiction |].
  rewrite Hcur. cbv beta iota zeta. fold saved. rewrite Hsave.
  cbv beta iota zeta.
  rewrite saveCurrentSession_ok by exact Hf1.
  eexists. split; [reflexivity |].
  cbn [storage screen alerts set_storage set_screen add_alert
       StorageService.put_CURRENT_SESSION CURRENT_SESSION
       ScanningScreen.setCurrentSession ScanningScreen.setBeaconReads
       ScanningScreen.setShowSaveModal ScanningScreen.setSessionName
       currentSession screen_beaconReads sessionName].
  destruct Hrest as (Hscreen & Halerts).
  rewrite Halerts.
  repeat split; [exact Hfound | exact Hother].
Qed.

(** X20. What the screen's [saveSession] stores: when no storage call
    fails, a session is on the screen and the typed name is not blank, the
    saved sessions hold, under the id of the screen's session, that session
    with the trimmed name, the clock as end time and the reads of the
    screen's copy; sessions of other ids are kept, the current-session
    marker is removed and the screen is reset. *)
Theorem screen_save_stores_screen_session (cur : Session) (w : World) :
  faults w = [] ->
  currentSession (screen w) = Some cur ->
  trim (sessionName (screen w)) <> "" ->
  exists w',
    ScanningScreen.saveSession w = (Normal tt, w')
    /\ session_with_id (session_id cur) (saved_sessions w')
       = Some {| session_id := session_id cur;
                 session_name := trim (sessionName (screen w));
                 startTime := startTime cur;
                 endTime := Some (now w);
                 beaconReads := beaconReads cur |}
    /\ (forall id, id <> session_id cur ->
          session_with_id id (saved_sessions w')
          = session_with_id id (saved_sessions w))
    /\ CURRENT_SESSION (storage w') = None
    /\ currentSession (screen w') = None
    /\ screen_beaconReads (screen w') = []
    /\ sessionName (screen w') = ""
    /\ alerts w' = (alerts w ++ [("Success", "Session saved successfully")])%list.
Proof.
  intros Hf Hcur Hname.
  destruct (screen_save_ok cur w Hf Hcur Hname) as (w' & Hrun & Hrest).
  exists w'. now split.
Qed.

Lemma screen_save_stores_screen_session_witness :
  let w := set_screen (ScanningScreen.setSessionName " lab ")
             (set_screen (ScanningScreen.setCurrentSession
                            (Some session_in_progress))
                         (initialised recording_storage [] 1020)) in
  exists w',
    ScanningScreen.saveSession w = (Normal tt, w')
    /\ session_with_id "session_1000" (saved_sessions w')
       = Some {| session_id := "session_1000";
                 session_name := "lab";
                 startTime := 1000;
                 endTime := Some 1020;
                 beaconReads := [] |}
    /\ CURRENT_SESSION (storage w') = None.
Proof.
  intros w.
  destruct (screen_save_stores_screen_session session_in_progress w)
    as (w' & Hrun & Hfound & _ & Hmarker & _);
    [reflexivity | reflexivity | vm_compute; discriminate |].
  exists w'. split; [exact Hrun |]. split; [exact Hfound | exact Hmarker].
Defined.

(** ** Starting the application *)

Lemma initializeApp_ok (android : bool) (granted : list bool) (w : World) :
  faults w = [] ->
  android = false \/ forallb (fun permission => permission) granted = true ->
  ScanningScreen.initializeApp android granted "on" w =
  (Normal true,
   let w1 :=
     set_ble (BleService.put_onBeaconFound (Some PrependBeaconRead))
       (set_screen (ScanningScreen.setBluetoothState "on")
          (add_console "BLE Manager initialized" w)) in
   match CURRENT_SESSION (storage w) with
   | Some s =>
       set_screen (ScanningScreen.setBeaconReads (beaconReads s))
         (set_screen (ScanningScreen.setCurrentSession (Some s)) w1)
   | None => w1
   end).
Proof.
  intros Hf Hgranted. open_world w. subst.
  unfold ScanningScreen.initializeApp, BleService.requestPermissions.
  destruct Hgranted as [-> | Hall].
  - destruct stored as [configured saved [marker |]]; reflexivity.
  - destruct stored as [configured saved [marker |]];
      destruct android; js_unfold; simpl; rewrite ?Hall; reflexivity.
Qed.

(** X21. A session in progress survives a restart: when the platform
    grants the permissions, Bluetooth is on and no native call fails,
    [initializeApp] reaches the initialised state, registers the callback,
    and puts the stored current session with all its reads on the screen;
    saving then stores the session with these reads. *)
Theorem restart_recovers_session
        (android : bool) (granted : list bool) (s : Session)
        (finalName : string) (w : World) :
  faults w = [] ->
  android = false \/ forallb (fun permission => permission) granted = true ->
  CURRENT_SESSION (storage w) = Some s ->
  trim finalName <> "" ->
  exists w1 w2,
    ScanningScreen.initializeApp android granted "on" w = (Normal true, w1)
    /\ currentSession (screen w1) = Some s
    /\ screen_beaconReads (screen w1) = beaconReads s
    /\ onBeaconFound (ble w1) = Some PrependBeaconRead
    /\ storage w1 = storage w
    /\ ScanningScreen.saveSession
         (set_screen (ScanningScreen.setSessionName finalName) w1)
       = (Normal tt, w2)
    /\ session_with_id (session_id s) (saved_sessions w2)
       = Some {| session_id := session_id s;
                 session_name := trim finalName;
                 startTime := startTime s;
                 endTime := Some (now w);
                 beaconReads := beaconReads s |}
    /\ CURRENT_SESSION (storage w2) = None.
Proof.
  intros Hf Hgranted Hs Hname.
  pose proof (initializeApp_ok android granted w Hf Hgranted) as Hinit.
  rewrite Hs in Hinit. cbv zeta in Hinit.
  match type of Hinit with _ = (_, ?w1) => set (w1' := w1) in * end.
  destruct (screen_save_ok s
              (set_screen (ScanningScreen.setSessionName finalName) w1'))
    as (w2 & Hsave & Hfound & _ & Hmarker & _);
    [exact Hf | reflexivity | exact Hname |].
  exists w1', w2. repeat split; assumption.
Qed.

Lemma restart_recovers_session_witness :
  exists w1 w2,
    ScanningScreen.initializeApp true [true; true; true; true] "on"
      (mkWorld recording_storage [] 1020 [] (fun _ => "")
               (mkBle false None None 0)
               (mkScreen false None [] "unknown" false "") [] [])
    = (Normal true, w1)
    /\ currentSession (screen w1) = Some session_in_progress
    /\ ScanningScreen.saveSession
         (set_screen (ScanningScreen.setSessionName "x") w1)
       = (Normal tt, w2)
    /\ CURRENT_SESSION (storage w2) = None.
Proof.
  destruct (restart_recovers_session true [true; true; true; true]
              session_in_progress "x"
              (mkWorld recording_storage [] 1020 [] (fun _ => "")
                       (mkBle false None None 0)
                       (mkScreen false None [] "unknown" false "") [] []))
    as (w1 & w2 & Hinit & Hcur & _ & _ & _ & Hsave & _ & Hmarker);
    [reflexivity | right; reflexivity | reflexivity
     | vm_compute; discriminate |].
  exists w1, w2. repeat split; assumption.
Defined.

(** X22. Without permissions, or unless Bluetooth is reported "on", the
    application is not initialised: [initializeApp] completes, answers
    false, registers no callback and leaves the storage alone, whichever
    native calls fail; the discovery handler then ignores every
    peripheral. *)
Theorem uninitialised_app_ignores_discoveries
        (android : bool) (granted : list bool) (state : string) (w : World) :
  onBeaconFound (ble w) = None ->
  (android = true /\ forallb (fun permission => permission) granted = false)
  \/ state <> "on" ->
  exists w',
    ScanningScreen.initializeApp android granted state w = (Normal false, w')
    /\ onBeaconFound (ble w') = None
    /\ storage w' = storage w
    /\ currentSession (screen w') = currentSession (screen w)
    /\ forall peripheral,
         BleService.handlePeripheralDiscovered peripheral w' = (Normal tt, w').
Proof.
  intros Hcb Hnot.
  assert (forall w' : World, onBeaconFound (ble w') = None ->
            forall peripheral,
              BleService.handlePeripheralDiscovered peripheral w'
              = (Normal tt, w')) as Hignore.
  { intros w' Hnone peripheral.
    unfold BleService.handlePeripheralDiscovered, bind, gets.
    rewrite Hnone. now destruct (ble_settings (ble w')). }
  assert (exists w',
             ScanningScreen.initializeApp android granted state w
             = (Normal false, w')
             /\ onBeaconFound (ble w') = None
             /\ storage w' = storage w
             /\ currentSession (screen w') = currentSession (screen w))
    as (w' & Hrun & Hnone & Hst & Hcur).
  { open_world w. subst.
    unfold ScanningScreen.initializeApp, BleService.requestPermissions,
      BleService.getBluetoothState, BleService.initialize.
    destruct Hnot as [[-> Hdenied] | Hoff].
    - destruct oracle as [| [|] [| [|] rest]]; js_unfold; simpl;
        rewrite ?Hdenied; eexists; (split; [reflexivity |]);
        now repeat split.
    - apply String.eqb_neq in Hoff.
      destruct android;
        destruct (forallb (fun permission => permission) granted);
        destruct oracle as [| [|] [| [|] [| [|] rest]]]; js_unfold; simpl;
        rewrite ?Hoff; eexists; (split; [reflexivity |]);
        now repeat split. }
  exists w'. repeat (split; [assumption |]). now apply Hignore.
Qed.

Lemma uninitialised_app_ignores_discoveries_witness :
  exists w',
    ScanningScreen.initializeApp true [true; false; true; true] "on"
      (mkWorld recording_storage [] 1020 [] (fun _ => "")
               (mkBle false None None 0)
               (mkScreen false None [] "unknown" false "") [] [])
    = (Normal false, w')
    /\ onBeaconFound (ble w') = None.
Proof.
  destruct (uninitialised_app_ignores_discoveries
              true [true; false; true; true] "on"
              (mkWorld recording_storage [] 1020 [] (fun _ => "")
                       (mkBle false None None 0)
                       (mkScreen false None [] "unknown" false "") [] []))
    as (w' & Hrun & Hnone & _);
    [reflexivity | left; split; reflexivity |].
  exists w'. split; assumption.
Defined.

(** ** The settings screen *)





(** ** The sessions screen *)

Lemma insert_session_perm (a : Session) (l : list Session) :
  Permutation (SessionsScreen.insert_session a l) (a :: l).
Proof.
  induction l as [| b l IH]; simpl; [reflexivity |].
  destruct (startTime a - startTime b <? 0); [| reflexivity].
  rewrite IH. apply perm_swap.
Qed.

Lemma sort_sessions_perm (l : list Session) :
  Permutation (SessionsScreen.sort_sessions l) l.
Proof.
  induction l as [| a l IH]; simpl; [reflexivity |].
  now rewrite insert_session_perm, IH.
Qed.

Lemma insert_session_sorted (a : Session) (l : list Session) :
  Sorted by_recency l -> Sorted by_recency (SessionsScreen.insert_session a l).
Proof.
  unfold by_recency.
  induction l as [| b l IH]; intros Hsorted; simpl.
  - repeat constructor.
  - apply Sorted_inv in Hsorted as [Hl Hhd].
    destruct (Z.ltb_spec (startTime a - startTime b) 0) as [Hlt | Hge].
    + constructor; [now apply IH |].
      destruct l as [| c l]; simpl.
      * constructor. lia.
      * destruct (startTime a - startTime c <? 0); constructor;
          [now inversion Hhd | lia].
    + repeat constructor; [exact Hl | exact Hhd | lia].
Qed.

Lemma sort_sessions_sorted (l : list Session) :
  Sorted by_recency (SessionsScreen.sort_sessions l).
Proof.
  induction l as [| a l IH]; simpl; [constructor |].
  now apply insert_session_sorted.
Qed.

Lemma by_recency_transitive (a b c : Session) :
  by_recency a b -> by_recency b c -> by_recency a c.
Proof. unfold by_recency. lia. Qed.

Lemma insert_session_same_start (t : Z) (a : Session) (l : list Session) :
  List.filter (fun s => startTime s =? t) (SessionsScreen.insert_session a l)
  = List.filter (fun s => startTime s =? t) (a :: l).
Proof.
  induction l as [| b l IH]; [reflexivity |].
  cbn [SessionsScreen.insert_session].
  destruct (Z.ltb_spec (startTime a - startTime b) 0) as [Hlt | Hge];
    [| reflexivity].
  cbn [List.filter] in *. rewrite IH.
  destruct (Z.eqb_spec (startTime a) t) as [Ea | Na];
    destruct (Z.eqb_spec (startTime b) t) as [Eb | Nb]; try reflexivity.
  lia.
Qed.

(** X25. The sessions screen lists the saved sessions newest first:
    [loadSessions] always completes and leaves the storage alone; its list
    is ordered by start time, latest first, sessions with the same start
    time keep their stored order, and when the read succeeds it holds
    exactly the stored sessions. *)
Theorem loadSessions_newest_first (w : World) :
  exists listed w',
    SessionsScreen.loadSessions w = (Normal (Some listed), w')
    /\ storage w' = storage w
    /\ StronglySorted by_recency listed
    /\ (faults w = [] ->
        Permutation listed (saved_sessions w)
        /\ forall t,
             List.filter (fun s => startTime s =? t) listed
             = List.filter (fun s => startTime s =? t) (saved_sessions w)).
Proof.
  assert (forall l, StronglySorted by_recency (SessionsScreen.sort_sessions l))
    as Hstrong.
  { intros l. apply Sorted_StronglySorted.
    - intros a b c. apply by_recency_transitive.
    - apply sort_sessions_sorted. }
  assert (forall l t,
            List.filter (fun s => startTime s =? t)
                        (SessionsScreen.sort_sessions l)
            = List.filter (fun s => startTime s =? t) l) as Hstable.
  { intros l t. induction l as [| a l IH]; [reflexivity |].
    cbn [SessionsScreen.sort_sessions].
    rewrite insert_session_same_start. cbn [List.filter]. now rewrite IH. }
  open_world w. unfold saved_sessions. simpl.
  destruct oracle as [| [|] rest];
    destruct stored as [configured [sessions |] marker];
    eexists; eexists; (split; [reflexivity |]);
    (split; [reflexivity |]); (split; [apply Hstrong |]);
    intros Hf; try discriminate;
    (split; [apply sort_sessions_perm | apply Hstable]).
Qed.

(** X26. Deleting from the sessions screen: when no storage call fails, the
    confirmed delete removes the session from storage and the reloaded list
    holds the remaining sessions, newest first, none of them with the
    deleted id; when the write fails the list is not reloaded, the storage
    is unchanged and the operator is told. *)
Theorem sessions_screen_delete (id : string) (w : World) :
  (faults w = [] ->
   exists listed w',
     SessionsScreen.deleteSession_onPress id w = (Normal (Some listed), w')
     /\ ~ In id (List.map session_id listed)
     /\ ~ In id (List.map session_id (saved_sessions w'))
     /\ Permutation listed
          (List.filter (fun s => negb (String.eqb (session_id s) id))
                       (saved_sessions w))
     /\ StronglySorted by_recency listed
     /\ alerts w'
        = (alerts w ++ [("Success", "Session deleted successfully")])%list)
  /\ (forall rest, faults w = false :: true :: rest ->
      exists w',
        SessionsScreen.deleteSession_onPress id w = (Normal None, w')
        /\ storage w' = storage w
        /\ alerts w'
           = (alerts w ++ [("Error", "Failed to delete session")])%list).
Proof.
  split.
  - intros Hf.
    set (kept := List.filter (fun s => negb (String.eqb (session_id s) id))
                             (saved_sessions w)).
    assert (~ In id (List.map session_id kept)) as Hgone.
    { rewrite List.in_map_iff. intros (s & Hid & Hin).
      apply List.filter_In in Hin as [_ Hkeep].
      rewrite <- Hid, String.eqb_refl in Hkeep. discriminate. }
    exists (SessionsScreen.sort_sessions kept).
    eexists. split; [| split; [| split; [| split; [| split]]]].
    + unfold SessionsScreen.deleteSession_onPress.
      unfold try_catch at 1. unfold bind at 1.
      rewrite deleteSession_ok by exact Hf. fold kept.
      open_world w. subst. reflexivity.
    + intros Hin. apply Hgone.
      apply List.in_map_iff in Hin as (s & Hid & Hin).
      apply List.in_map_iff. exists s. split; [exact Hid |].
      eapply Permutation_in; [apply sort_sessions_perm | exact Hin].
    + exact Hgone.
    + apply sort_sessions_perm.
    + apply Sorted_StronglySorted.
      * intros a b c. apply by_recency_transitive.
      * apply sort_sessions_sorted.
    + reflexivity.
  - intros rest Hf. open_world w. subst.
    destruct stored as [configured [sessions |] marker];
      eexists; (split; [reflexivity |]); now split.
Qed.

Lemma sessions_screen_delete_witness :
  exists listed w',
    SessionsScreen.deleteSession_onPress "session_1000"
      (initialised
         {| SETTINGS := None;
            SESSIONS := Some [session_in_progress];
            CURRENT_SESSION := None |} [] 2000)
    = (Normal (Some listed), w')
    /\ ~ In "session_1000" (List.map session_id listed).
Proof.
  destruct (proj1 (sessions_screen_delete "session_1000"
              (initialised
                 {| SETTINGS := None;
                    SESSIONS := Some [session_in_progress];
                    CURRENT_SESSION := None |} [] 2000)) eq_refl)
    as (listed & w' & Hrun & Hgone & _).
  exists listed, w'. split; assumption.
Defined.

(** X27. The duration shown for a session: for a session that did not end
    before it started, [formatDuration] shows whole minutes and the
    remaining whole seconds, between 0 and 59, of the time from the start
    to the end, or to the clock when the session has no end time; it
    changes nothing. *)
Theorem formatDuration_minutes_and_seconds
        (start : Z) (finish : option Z) (w : World) :
  start <= SessionsScreen.end_or_now finish (now w) ->
  exists minutes seconds,
    SessionsScreen.formatDuration start finish w
    = (Normal (toString10 minutes ++ "m " ++ toString10 seconds ++ "s")%string,
       w)
    /\ 0 <= minutes /\ 0 <= seconds <= 59
    /\ 60000 * minutes + 1000 * seconds
       <= SessionsScreen.end_or_now finish (now w) - start
       < 60000 * minutes + 1000 * seconds + 1000
    /\ (finish = None -> SessionsScreen.end_or_now finish (now w) = now w).
Proof.
  intros Hordered.
  set (duration := SessionsScreen.end_or_now finish (now w) - start) in *.
  exists (SessionsScreen.duration_minutes duration),
         (SessionsScreen.duration_seconds duration).
  split; [reflexivity |].
  unfold SessionsScreen.duration_minutes, SessionsScreen.duration_seconds.
  assert (0 <= duration) as Hpos by (unfold duration; lia).
  rewrite Z.rem_mod_nonneg by lia.
  pose proof (Z.div_mod duration 60000 ltac:(lia)) as Hdiv.
  pose proof (Z.mod_pos_bound duration 60000 ltac:(lia)) as Hmod.
  pose proof (Z.div_mod (duration mod 60000) 1000 ltac:(lia)) as Hdiv'.
  pose proof (Z.mod_pos_bound (duration mod 60000) 1000 ltac:(lia)) as Hmod'.
  assert (0 <= duration / 60000) by (apply Z.div_pos; lia).
  assert (0 <= duration mod 60000 / 1000) by (apply Z.div_pos; lia).
  assert (duration mod 60000 / 1000 <= 59)
    by (apply Z.lt_succ_r, Z.div_lt_upper_bound; lia).
  repeat split; try lia.
  intros ->. reflexivity.
Qed.

Lemma formatDuration_minutes_and_seconds_witness :
  exists minutes seconds,
    SessionsScreen.formatDuration 1000 (Some 126500)
                                  (initialised empty_storage [] 200000)
    = (Normal (toString10 minutes ++ "m " ++ toString10 seconds ++ "s")%string,
       initialised empty_storage [] 200000)
    /\ 0 <= minutes /\ 0 <= seconds <= 59.
Proof.
  destruct (formatDuration_minutes_and_seconds 1000 (Some 126500)
              (initialised empty_storage [] 200000))
    as (minutes & seconds & Hrun & Hm & Hs & _); [simpl; lia |].
  exists minutes, seconds. repeat split; first [exact Hrun | lia].
Defined.
